(** * Rancher management controllers and ext stores: a shallow embedding

    Sources embedded here, each with its properties in a module of its own:
    - [pkg/controllers/management/auth/crtb_handler.go]  ([Auth], [AuthSpec])
    - the secret-backed token store, package [tokens]     ([Tokens], [TokensSpec])
    - [pkg/ext/stores/useractivity/store.go]    ([UserActivity], [UserActivitySpec])
    - [pkg/ext/apiserver.go]                    ([Ext], [ExtSpec])

    Further properties of the first three are in [AuthMore], [TokensMore]
    and [UserActivityMore].

    The Go code is a client of interfaces (listers, typed clients, a user
    manager, a token controller).  Every interface method becomes one
    constructor of a call signature, a Go function becomes a program in the
    free monad over that signature, and a program is run against a handler
    that answers each call and threads the state of the outside world.  The
    run also records the calls that were issued together with their answers,
    so that statements such as "no update is issued" can be made. *)

From stdpp Require Import base option list strings pretty gmap fin_maps.
From Stdlib Require Import ZArith Lia Ascii.

Set Default Proof Using "Type".
Open Scope string_scope.
Open Scope list_scope.

(** ** Go values *)

Module Go.

(** Go's [error] values, as far as the code tells them apart: an API status
    error with its reason, an [errors.New]/[fmt.Errorf] text, a [fmt.Errorf]
    with a wrapped cause ([%w]), and the result of [errors.Join]. *)
#[warnings="-register-all"] Inductive error : Type :=
| StatusError (reason : string) (message : string)
| errorString (s : string)
| wrapError (msg : string) (err : error)
| joinError (errs : list error).

(** [(T, error)] results of calls that yield a value exactly when [err == nil]. *)
Inductive result (T : Type) : Type :=
| Ok (v : T)
| Err (e : error).
Arguments Ok {T} v.
Arguments Err {T} e.

(** [strings.Join] over a list of lines, as [joinError.Error] does with a
    newline separator. *)
Fixpoint join_lines (l : list string) : string :=
  match l with
  | [] => ""
  | [s] => s
  | s :: l' => s +:+ String "010"%char (join_lines l')
  end.

(** [err.Error()]. *)
Fixpoint Error (e : error) : string :=
  match e with
  | StatusError _ m => m
  | errorString s => s
  | wrapError m _ => m
  | joinError es => join_lines (map Error es)
  end.

(** [fmt.Errorf(prefix + "%w", err)] and [fmt.Errorf(prefix + "%v", err)]. *)
Definition Errorf_w (pre : string) (e : error) : error := wrapError (pre +:+ Error e) e.
Definition Errorf_v (pre : string) (e : error) : error := errorString (pre +:+ Error e).

(** [apierrors.ReasonForError]: the reason of the first API status found by
    [errors.As], which walks wrapped and joined errors depth first. *)
Fixpoint findStatus (e : error) : option string :=
  match e with
  | StatusError r _ => Some r
  | errorString _ => None
  | wrapError _ e' => findStatus e'
  | joinError es =>
      (fix first (l : list error) : option string :=
         match l with
         | [] => None
         | x :: l' => match findStatus x with Some r => Some r | None => first l' end
         end) es
  end.

Definition StatusReasonUnknown : string := "".
Definition StatusReasonNotFound : string := "NotFound".
Definition StatusReasonConflict : string := "Conflict".

Definition ReasonForError (e : error) : string :=
  default StatusReasonUnknown (findStatus e).

Definition IsNotFound (e : error) : bool :=
  bool_decide (ReasonForError e = StatusReasonNotFound).
Definition IsConflict (e : error) : bool :=
  bool_decide (ReasonForError e = StatusReasonConflict).

(** [errors.Join(a, b)]: nil values are dropped, nil when nothing is left. *)
Definition errors_Join (a b : option error) : option error :=
  match a, b with
  | None, None => None
  | Some x, None => Some (joinError [x])
  | None, Some y => Some (joinError [y])
  | Some x, Some y => Some (joinError [x; y])
  end.

(** [strings.HasSuffix]. *)
Definition HasSuffix (s suffix : string) : bool :=
  bool_decide (String.length suffix ≤ String.length s)%nat
  && bool_decide (String.substring (String.length s - String.length suffix)
                            (String.length suffix) s = suffix).

(** [m[k]] on a [map[string]string]: the zero value when the key is absent
    (also on a nil map). *)
Definition index (m : gmap string string) (k : string) : string :=
  default "" (m !! k).

End Go.
Export Go.

(** [time.Time]: an instant (nanoseconds since the Unix epoch) shown in a
    location.  Only what the code uses is kept: [Add], [UTC], and the nil test
    on a deletion timestamp. *)
Inductive Location : Type :=
| UTCLoc
| Zone (name : string) (offset : Z).

Record Time : Type := { nsec : Z; loc : Location }.

(** ** Programs over an interface *)

Section Prog.
Context {E : Type → Type}.

(** A program either returns or calls a method of the interface and goes
    on with the answer. *)
Inductive Prog (R : Type) : Type :=
| Ret (r : R)
| Vis {X : Type} (c : E X) (k : X → Prog R).
Arguments Ret {R} r.
Arguments Vis {R X} c k.

Fixpoint bind {A B} (p : Prog A) (f : A → Prog B) : Prog B :=
  match p with
  | Ret a => f a
  | Vis c k => Vis c (λ x, bind (k x) f)
  end.

Definition call {X} (c : E X) : Prog X := Vis c Ret.

(** One call of the trace with the answer it got. *)
Inductive Event : Type :=
| Ev {X : Type} (c : E X) (x : X).

(** The outside world: a state and an answer to every call. *)
Definition handler (W : Type) : Type := ∀ X, E X → W → X * W.

Record Outcome (W R : Type) : Type :=
  { ret : R; post : W; log : list Event }.
Arguments ret {W R} o.
Arguments post {W R} o.
Arguments log {W R} o.

Fixpoint run {W R} (h : handler W) (p : Prog R) (w : W) : Outcome W R :=
  match p with
  | Ret r => {| ret := r; post := w; log := [] |}
  | Vis c k =>
      let a := h _ c w in
      let o := run h (k a.1) a.2 in
      {| ret := ret o; post := post o; log := Ev c a.1 :: log o |}
  end.

(** Run the programs of a list one after the other, whatever they return. *)
Fixpoint run_all {W R} (h : handler W) (ps : list (Prog R)) (w : W)
  : Outcome W (list R) :=
  match ps with
  | [] => {| ret := []; post := w; log := [] |}
  | p :: ps' =>
      let o := run h p w in
      let os := run_all h ps' (post o) in
      {| ret := ret o :: ret os; post := post os; log := log o ++ log os |}
  end.

(** [P] holds of every call the program can issue, whatever the answers. *)
Fixpoint always {R} (P : Event → Prop) (p : Prog R) : Prop :=
  match p with
  | Ret _ => True
  | Vis c k => ∀ x, P (Ev c x) ∧ always P (k x)
  end.

End Prog.

Arguments Prog E R : clear implicits.
Arguments Event E : clear implicits.
Arguments handler E W : clear implicits.
Arguments Ret {E R} r.
Arguments Vis {E R X} c k.
Arguments Ev {E X} c x.
Arguments Outcome E W R : clear implicits.
Arguments ret {E W R} o.
Arguments post {E W R} o.
Arguments log {E W R} o.

(** The programs form a monad: [mret] and [p;; q] are stdpp's, and
    [x <- p;; q] binds the answer of [p]. *)
#[global] Instance Prog_ret {E} : MRet (Prog E) := λ A, Ret.
#[global] Instance Prog_bind {E} : MBind (Prog E) := λ A B f p, bind p f.

Notation "x <- p ;; q" := (bind p (λ x, q))
  (at level 100, p at next level, right associativity, only parsing).

(** Go's [if err != nil { return err }] after a call that yields only an
    error, and after one that yields a value or an error. *)
Definition check {E} (p : Prog E (option error)) (k : Prog E (option error))
  : Prog E (option error) :=
  e <- p;; match e with Some err => mret (Some err) | None => k end.

Definition checked {E T} (p : Prog E (result T)) (k : T → Prog E (option error))
  : Prog E (option error) :=
  r <- p;; match r with Err err => mret (Some err) | Ok v => k v end.

(** [retry.OnError] over [wait.ExponentialBackoff]: [fn] is tried while the
    step budget lasts; success or an error that is not retriable ends the
    loop at once, and when the budget is spent the last retriable error is
    returned.  The sleeps between attempts are not modelled. *)
Fixpoint OnError {E} (steps : nat) (retriable : error → bool)
    (fn : Prog E (option error)) (lastErr : option error) : Prog E (option error) :=
  match steps with
  | O => mret lastErr
  | S n =>
      e <- fn;;
      match e with
      | None => mret None
      | Some err => if retriable err then OnError n retriable fn (Some err)
                    else mret (Some err)
      end
  end.

(** [retry.DefaultRetry] has [Steps: 5]. *)
Definition DefaultRetry : nat := 5.

Definition RetryOnConflict {E} (steps : nat) (fn : Prog E (option error))
  : Prog E (option error) :=
  OnError steps IsConflict fn None.

(** ** pkg/controllers/management/auth/crtb_handler.go *)

Module Auth.

Definition MembershipBindingOwnerLegacy : string := "memberhsip-binding-owner".
Definition MembershipBindingOwner : string := "membership-binding-owner".
Definition CrtbInProjectBindingOwner : string := "crtb-in-project-binding-owner".
Definition ctrbMGMTController : string := "mgmt-auth-crtb-controller".
Definition rtbLabelUpdated : string := "auth.management.cattle.io/rtb-label-updated".
Definition RtbCrbRbLabelsUpdated : string := "auth.management.cattle.io/crb-rb-labels-updated".
Definition NamespaceAll : string := "".

Definition clusterManagementPlaneResources : gmap string string :=
  list_to_map
    [ ("clusterscans", "management.cattle.io");
      ("catalogtemplates", "management.cattle.io");
      ("catalogtemplateversions", "management.cattle.io");
      ("clusteralertrules", "management.cattle.io");
      ("clusteralertgroups", "management.cattle.io");
      ("clustercatalogs", "management.cattle.io");
      ("clusterloggings", "management.cattle.io");
      ("clustermonitorgraphs", "management.cattle.io");
      ("clusterregistrationtokens", "management.cattle.io");
      ("clusterroletemplatebindings", "management.cattle.io");
      ("etcdbackups", "management.cattle.io");
      ("nodes", "management.cattle.io");
      ("nodepools", "management.cattle.io");
      ("notifiers", "management.cattle.io");
      ("projects", "management.cattle.io");
      ("etcdsnapshots", "rke.cattle.io") ].

(** [metav1.ObjectMeta], the fields this file reads or writes. *)
Record ObjectMeta : Type := {
  Name : string;
  Namespace : string;
  UID : string;
  Labels : gmap string string;
  Annotations : gmap string string;
  DeletionTimestamp : option Time
}.

Definition withLabels (l : gmap string string) (m : ObjectMeta) : ObjectMeta :=
  {| Name := Name m; Namespace := Namespace m; UID := UID m; Labels := l;
     Annotations := Annotations m; DeletionTimestamp := DeletionTimestamp m |}.

Record ClusterRoleTemplateBinding : Type := {
  crtbMeta : ObjectMeta;
  UserName : string;
  UserPrincipalName : string;
  GroupName : string;
  GroupPrincipalName : string;
  ClusterName : string;
  RoleTemplateName : string
}.

Definition withUserName (n : string) (b : ClusterRoleTemplateBinding) :=
  {| crtbMeta := crtbMeta b; UserName := n;
     UserPrincipalName := UserPrincipalName b; GroupName := GroupName b;
     GroupPrincipalName := GroupPrincipalName b; ClusterName := ClusterName b;
     RoleTemplateName := RoleTemplateName b |}.

Definition withUserPrincipalName (p : string) (b : ClusterRoleTemplateBinding) :=
  {| crtbMeta := crtbMeta b; UserName := UserName b;
     UserPrincipalName := p; GroupName := GroupName b;
     GroupPrincipalName := GroupPrincipalName b; ClusterName := ClusterName b;
     RoleTemplateName := RoleTemplateName b |}.

Definition withCrtbLabels (l : gmap string string) (b : ClusterRoleTemplateBinding) :=
  {| crtbMeta := withLabels l (crtbMeta b); UserName := UserName b;
     UserPrincipalName := UserPrincipalName b; GroupName := GroupName b;
     GroupPrincipalName := GroupPrincipalName b; ClusterName := ClusterName b;
     RoleTemplateName := RoleTemplateName b |}.

Record User : Type := { userMeta : ObjectMeta; PrincipalIDs : list string }.
Record Project : Type := { projectMeta : ObjectMeta }.
Record Cluster : Type := { clusterMeta : ObjectMeta }.
(** Of the native bindings only the metadata is touched here. *)
Record RoleBinding : Type := { rbMeta : ObjectMeta }.
Record ClusterRoleBinding : Type := { crbMeta : ObjectMeta }.

(** [rbacv1.Subject]. *)
Record Subject : Type := {
  Kind : string; APIGroup : string; subjectName : string; subjectNamespace : string
}.

(** What this file takes from the rest of the repository and from its
    libraries without their code being at hand: the label requirements of a
    selector ([labels.Requirement]) and [getLabelRequirements] that builds
    the auxiliary ones, [pkgrbac.GetRTBLabel], [pkgrbac.BuildSubjectFromRTB],
    the package variable [projectManagementPlaneResources], the constants
    [clusterContext] and [authprovisioningv2.CRTBRoleBindingID], and
    [strings.ToLower]. *)
Class Deps : Type := {
  Requirement : Type;
  getLabelRequirements : ObjectMeta → result (list Requirement);
  GetRTBLabel : ObjectMeta → string;
  BuildSubjectFromRTB : ClusterRoleTemplateBinding → result Subject;
  projectManagementPlaneResources : gmap string string;
  clusterContext : string;
  CRTBRoleBindingID : string;
  ToLower : string → string
}.

Section WithDeps.
Context `{Deps}.

(** A [labels.Selector] as this file builds them: [set.AsSelector()], one
    equality requirement per entry of the set, extended by [Add]. *)
Record Selector : Type := {
  selSet : gmap string string;
  selRequirements : list Requirement
}.

Definition Everything : Selector := {| selSet := ∅; selRequirements := [] |}.
Definition AsSelector (set : gmap string string) : Selector :=
  {| selSet := set; selRequirements := [] |}.
Definition Add (s : Selector) (reqs : list Requirement) : Selector :=
  {| selSet := selSet s; selRequirements := selRequirements s ++ reqs |}.

(** The methods of the interfaces held by [crtbLifecycle] ([mgr], the
    listers, the clients, [userMGR]) and the logger. *)
Inductive Call : Type → Type :=
| userMGR_EnsureUser (principalName displayName : string) : Call (result User)
| userLister_Get (namespace name : string) : Call (result User)
| clusterLister_Get (namespace name : string) : Call (result (option Cluster))
| projectLister_List (namespace : string) (sel : Selector) : Call (result (list Project))
| mgr_checkReferencedRoles (roleTemplateName roleTemplateContext : string) (depth : nat)
    : Call (result bool)
| mgr_ensureClusterMembershipBinding (roleName rtbNsAndName : string)
    (cluster : Cluster) (makeOwner : bool) (subject : Subject) : Call (option error)
| mgr_grantManagementPlanePrivileges (roleTemplateName : string)
    (resources : gmap string string) (subject : Subject)
    (binding : ClusterRoleTemplateBinding) : Call (option error)
| mgr_grantManagementClusterScopedPrivilegesInProjectNamespace
    (roleTemplateName projectNamespace : string) (resources : gmap string string)
    (subject : Subject) (binding : ClusterRoleTemplateBinding) : Call (option error)
| mgr_reconcileClusterMembershipBindingForDelete (roleToKeep rtbNsAndName : string)
    : Call (option error)
| mgr_removeAuthV2Permissions (setID : string) (owner : ClusterRoleTemplateBinding)
    : Call (option error)
| rbLister_List (namespace : string) (sel : Selector) : Call (result (list RoleBinding))
| rbClient_GetNamespaced (namespace name : string) : Call (result RoleBinding)
| rbClient_Update (rb : RoleBinding) : Call (result RoleBinding)
| rbClient_DeleteNamespaced (namespace name : string) : Call (option error)
| crbLister_List (namespace : string) (sel : Selector)
    : Call (result (list ClusterRoleBinding))
| crbClient_Get (name : string) : Call (result ClusterRoleBinding)
| crbClient_Update (crb : ClusterRoleBinding) : Call (result ClusterRoleBinding)
| crtbClient_GetNamespaced (namespace name : string)
    : Call (result ClusterRoleTemplateBinding)
| crtbClient_Update (crtb : ClusterRoleTemplateBinding)
    : Call (result ClusterRoleTemplateBinding)
| logrus_Warnf (msg : string) : Call unit
| logrus_Infof (msg : string) : Call unit.

(** The loop of [reconcileSubject] over [u.PrincipalIDs], with its [break]. *)
Fixpoint scanPrincipalIDs (ids : list string) (binding : ClusterRoleTemplateBinding)
  : ClusterRoleTemplateBinding :=
  match ids with
  | [] => binding
  | p :: ids' =>
      if HasSuffix p (UserName binding) then withUserPrincipalName p binding
      else scanPrincipalIDs ids' binding
  end.

(** In the spec's words: the first identifier that has the name as a
    suffix, if there is one. *)
Definition firstWithSuffix (name : string) (ids : list string) : option string :=
  snd <$> list_find (λ p, HasSuffix p name = true) ids.

(** [reconcileSubject] returns the pair [(binding, err)]; the binding is
    [nil] only in the last case. *)
Definition reconcileSubject (binding : ClusterRoleTemplateBinding)
  : Prog Call (option ClusterRoleTemplateBinding * option error) :=
  if decide (GroupName binding ≠ "" ∨ GroupPrincipalName binding ≠ "" ∨
             (UserPrincipalName binding ≠ "" ∧ UserName binding ≠ ""))
  then mret (Some binding, None)
  else if decide (UserPrincipalName binding ≠ "" ∧ UserName binding = "")
  then
    let displayName :=
      index (Annotations (crtbMeta binding)) "auth.cattle.io/principal-display-name" in
    r <- call (userMGR_EnsureUser (UserPrincipalName binding) displayName);;
    match r with
    | Err err => mret (Some binding, Some err)
    | Ok user => mret (Some (withUserName (Name (userMeta user)) binding), None)
    end
  else if decide (UserPrincipalName binding = "" ∧ UserName binding ≠ "")
  then
    r <- call (userLister_Get "" (UserName binding));;
    match r with
    | Err err => mret (Some binding, Some err)
    | Ok u => mret (Some (scanPrincipalIDs (PrincipalIDs u) binding), None)
    end
  else
    mret (None, Some (errorString ("ClusterRoleTemplateBinding "
                                   +:+ Name (crtbMeta binding) +:+ " has no subject"))).

(** The loop of [reconcileBindings] over the projects. *)
Fixpoint grantInProjects (binding : ClusterRoleTemplateBinding) (subject : Subject)
    (projects : list Project) : Prog Call (option error) :=
  match projects with
  | [] => mret None
  | p :: projects' =>
      match DeletionTimestamp (projectMeta p) with
      | Some _ =>
          call (logrus_Warnf ("Project " +:+ Name (projectMeta p)
                              +:+ " is being deleted, not creating membership bindings"));;
          grantInProjects binding subject projects'
      | None =>
          check (call (mgr_grantManagementClusterScopedPrivilegesInProjectNamespace
                         (RoleTemplateName binding) (Name (projectMeta p))
                         projectManagementPlaneResources subject binding))
                (grantInProjects binding subject projects')
      end
  end.

Definition reconcileBindings (binding : ClusterRoleTemplateBinding)
  : Prog Call (option error) :=
  if decide (UserName binding = "" ∧ GroupPrincipalName binding = "" ∧
             GroupName binding = "")
  then mret None
  else
    let clusterName := ClusterName binding in
    r <- call (clusterLister_Get "" clusterName);;
    match r with
    | Err err => mret (Some err)
    | Ok None =>
        mret (Some (errorString ("cannot create binding because cluster "
                                 +:+ clusterName +:+ " was not found")))
    | Ok (Some cluster) =>
        r <- call (mgr_checkReferencedRoles (RoleTemplateName binding) clusterContext 0);;
        match r with
        | Err err =>
            if IsNotFound err then
              call (logrus_Warnf ("ClusterRoleTemplateBinding " +:+ Name (crtbMeta binding)
                                  +:+ " sets a non-existing role template "
                                  +:+ RoleTemplateName binding +:+ ". Skipping."));;
              mret None
            else mret (Some err)
        | Ok isOwnerRole =>
            let clusterRoleName :=
              if (isOwnerRole : bool) then ToLower (clusterName +:+ "-clusterowner")
              else ToLower (clusterName +:+ "-clustermember") in
            match BuildSubjectFromRTB binding with
            | Err err => mret (Some err)
            | Ok subject =>
                check (call (mgr_ensureClusterMembershipBinding clusterRoleName
                               (GetRTBLabel (crtbMeta binding)) cluster isOwnerRole subject))
               (check (call (mgr_grantManagementPlanePrivileges (RoleTemplateName binding)
                               clusterManagementPlaneResources subject binding))
               (checked (call (projectLister_List (Namespace (crtbMeta binding)) Everything))
                        (grantInProjects binding subject)))
            end
        end
    end.

(** The inner loop of [removeMGMTClusterScopedPrivilegesInProjectNamespace]
    over the bindings listed in one project namespace. *)
Fixpoint deleteRoleBindings (binding : ClusterRoleTemplateBinding) (p : Project)
    (rbs : list RoleBinding) : Prog Call (option error) :=
  match rbs with
  | [] => mret None
  | rb :: rbs' =>
      call (logrus_Infof ("[" +:+ ctrbMGMTController +:+ "] Deleting rolebinding "
                          +:+ Name (rbMeta rb) +:+ " in namespace " +:+ Name (projectMeta p)
                          +:+ " for crtb " +:+ Name (crtbMeta binding)));;
      check (call (rbClient_DeleteNamespaced (Name (projectMeta p)) (Name (rbMeta rb))))
            (deleteRoleBindings binding p rbs')
  end.

(** Its outer loop over the projects. *)
Fixpoint removeInProjects (binding : ClusterRoleTemplateBinding) (bindingKey : string)
    (projects : list Project) : Prog Call (option error) :=
  match projects with
  | [] => mret None
  | p :: projects' =>
      let set : gmap string string := {[ bindingKey := CrtbInProjectBindingOwner ]} in
      checked (call (rbLister_List (Name (projectMeta p)) (AsSelector set)))
        (λ rbs, check (deleteRoleBindings binding p rbs)
                      (removeInProjects binding bindingKey projects'))
  end.

Definition removeMGMTClusterScopedPrivilegesInProjectNamespace
    (binding : ClusterRoleTemplateBinding) : Prog Call (option error) :=
  checked (call (projectLister_List (Namespace (crtbMeta binding)) Everything))
    (λ projects,
       let bindingKey := GetRTBLabel (crtbMeta binding) in
       removeInProjects binding bindingKey projects).

(** [Remove] returns [(nil, err)] on every path. *)
Definition Remove (obj : ClusterRoleTemplateBinding)
  : Prog Call (option ClusterRoleTemplateBinding * option error) :=
  e <- call (mgr_reconcileClusterMembershipBindingForDelete "" (GetRTBLabel (crtbMeta obj)));;
  match e with
  | Some err => mret (None, Some err)
  | None =>
      e <- removeMGMTClusterScopedPrivilegesInProjectNamespace obj;;
      match e with
      | Some err => mret (None, Some err)
      | None =>
          err <- call (mgr_removeAuthV2Permissions CRTBRoleBindingID obj);;
          mret (None, err)
      end
  end.

(** The closure retried for one ClusterRoleBinding in [reconcileLabels].
    Writing into [Labels] after the nil test is an insertion either way. *)
Definition updateCRB (bindingKey : string) (crb : ClusterRoleBinding)
  : Prog Call (option error) :=
  r <- call (crbClient_Get (Name (crbMeta crb)));;
  match r with
  | Err updateErr => mret (Some updateErr)
  | Ok crbToUpdate =>
      let labels := <[ rtbLabelUpdated := "true" ]>
                      (<[ bindingKey := MembershipBindingOwner ]>
                         (Labels (crbMeta crbToUpdate))) in
      r <- call (crbClient_Update {| crbMeta := withLabels labels (crbMeta crbToUpdate) |});;
      match r with Err err => mret (Some err) | Ok _ => mret None end
  end.

(** The closure retried for one RoleBinding. *)
Definition updateRB (bindingKey : string) (rb : RoleBinding)
  : Prog Call (option error) :=
  r <- call (rbClient_GetNamespaced (Namespace (rbMeta rb)) (Name (rbMeta rb)));;
  match r with
  | Err updateErr => mret (Some updateErr)
  | Ok rbToUpdate =>
      let labels := <[ rtbLabelUpdated := "true" ]>
                      (<[ bindingKey := CrtbInProjectBindingOwner ]>
                         (Labels (rbMeta rbToUpdate))) in
      r <- call (rbClient_Update {| rbMeta := withLabels labels (rbMeta rbToUpdate) |});;
      match r with Err err => mret (Some err) | Ok _ => mret None end
  end.

(** The closure retried for the CRTB itself. *)
Definition updateCRTB (binding : ClusterRoleTemplateBinding) : Prog Call (option error) :=
  r <- call (crtbClient_GetNamespaced (Namespace (crtbMeta binding)) (Name (crtbMeta binding)));;
  match r with
  | Err updateErr => mret (Some updateErr)
  | Ok crtbToUpdate =>
      let labels := <[ RtbCrbRbLabelsUpdated := "true" ]> (Labels (crtbMeta crtbToUpdate)) in
      r <- call (crtbClient_Update (withCrtbLabels labels crtbToUpdate));;
      match r with Err err => mret (Some err) | Ok _ => mret None end
  end.

(** The two relabelling loops; [returnErr] is the error joined so far. *)
Fixpoint relabelCRBs (bindingKey : string) (crbs : list ClusterRoleBinding)
    (returnErr : option error) : Prog Call (option error) :=
  match crbs with
  | [] => mret returnErr
  | crb :: crbs' =>
      retryErr <- RetryOnConflict DefaultRetry (updateCRB bindingKey crb);;
      relabelCRBs bindingKey crbs' (errors_Join returnErr retryErr)
  end.

Fixpoint relabelRBs (bindingKey : string) (rbs : list RoleBinding)
    (returnErr : option error) : Prog Call (option error) :=
  match rbs with
  | [] => mret returnErr
  | rb :: rbs' =>
      retryErr <- RetryOnConflict DefaultRetry (updateRB bindingKey rb);;
      relabelRBs bindingKey rbs' (errors_Join returnErr retryErr)
  end.

Definition legacyCRBSelector (binding : ClusterRoleTemplateBinding)
    (requirements : list Requirement) : Selector :=
  Add (AsSelector {[ UID (crtbMeta binding) := MembershipBindingOwnerLegacy ]}) requirements.

Definition legacyRBSelector (binding : ClusterRoleTemplateBinding)
    (requirements : list Requirement) : Selector :=
  Add (AsSelector {[ UID (crtbMeta binding) := CrtbInProjectBindingOwner ]}) requirements.

Definition reconcileLabels (binding : ClusterRoleTemplateBinding)
  : Prog Call (option error) :=
  if decide (index (Labels (crtbMeta binding)) RtbCrbRbLabelsUpdated = "true")
  then mret None
  else
    match getLabelRequirements (crtbMeta binding) with
    | Err err => mret (Some err)
    | Ok requirements =>
        checked (call (crbLister_List NamespaceAll (legacyCRBSelector binding requirements)))
          (λ crbs,
             let bindingKey := GetRTBLabel (crtbMeta binding) in
             returnErr <- relabelCRBs bindingKey crbs None;;
             checked (call (rbLister_List NamespaceAll (legacyRBSelector binding requirements)))
               (λ rbs,
                  returnErr <- relabelRBs bindingKey rbs returnErr;;
                  match returnErr with
                  | Some err => mret (Some err)
                  | None => RetryOnConflict DefaultRetry (updateCRTB binding)
                  end))
    end.

(** [Create] and [Updated].  [reconcileSubject] yields a nil binding only
    together with an error ([reconcileSubject_binding_or_error] below), so
    the last branch, where Go would dereference nil, is never taken. *)
Definition Create (obj : ClusterRoleTemplateBinding)
  : Prog Call (option ClusterRoleTemplateBinding * option error) :=
  r <- reconcileSubject obj;;
  match r with
  | (_, Some err) => mret (None, Some err)
  | (Some obj, None) =>
      err <- reconcileBindings obj;;
      mret (Some obj, err)
  | (None, None) => mret (None, Some (errorString "nil pointer dereference"))
  end.

Definition Updated (obj : ClusterRoleTemplateBinding)
  : Prog Call (option ClusterRoleTemplateBinding * option error) :=
  r <- reconcileSubject obj;;
  match r with
  | (_, Some err) => mret (None, Some err)
  | (Some obj, None) =>
      e <- reconcileLabels obj;;
      match e with
      | Some err => mret (None, Some err)
      | None =>
          err <- reconcileBindings obj;;
          mret (Some obj, err)
      end
  | (None, None) => mret (None, Some (errorString "nil pointer dereference"))
  end.

(** The retried programs of the two relabelling loops, one per listed item. *)
Definition relabelCRBPrograms (bindingKey : string) (crbs : list ClusterRoleBinding)
  : list (Prog Call (option error)) :=
  (λ crb, RetryOnConflict DefaultRetry (updateCRB bindingKey crb)) <$> crbs.

Definition relabelRBPrograms (bindingKey : string) (rbs : list RoleBinding)
  : list (Prog Call (option error)) :=
  (λ rb, RetryOnConflict DefaultRetry (updateRB bindingKey rb)) <$> rbs.

(** *** Reading a trace *)




(** The name asked for by [crbClient.Get], the namespace and name asked for
    by [rbClient.GetNamespaced]. *)
Definition crbGet (ev : Event Call) : option string :=
  match ev with
  | Ev c _ => match c with crbClient_Get n => Some n | _ => None end
  end.

Definition rbGet (ev : Event Call) : option (string * string) :=
  match ev with
  | Ev c _ => match c with rbClient_GetNamespaced ns n => Some (ns, n) | _ => None end
  end.


Definition crtbUpdated (ev : Event Call) : option ClusterRoleTemplateBinding :=
  match ev with
  | Ev c _ => match c with crtbClient_Update b => Some b | _ => None end
  end.

(** [agg] is [e], or a join that holds [e] at some depth. *)
Inductive joins : error → error → Prop :=
| joins_here e : joins e e
| joins_in errs e' e : e' ∈ errs → joins e' e → joins (joinError errs) e.




(** *** The object store behind the project and RoleBinding clients *)

(** Modelled from the spec: the API server behind [projectLister], [rbLister]
    and [rbClient], which are interfaces in this file.  Projects, and
    RoleBindings keyed by namespace and name with their labels, which serve
    "both as a provenance record and as a selector for later
    listing/cleanup".  The lister and the client look at the same store.
    How an auxiliary requirement of a selector matches a label set is the
    labels library's business and is taken as [reqMatches]. *)
Record Store : Type := {
  projects : list Project;
  roleBindings : gmap (string * string) (gmap string string)
}.

Section Store.
Variable reqMatches : Requirement → gmap string string → bool.

Definition selects (sel : Selector) (labels : gmap string string) : Prop :=
  map_Forall (λ k v, labels !! k = Some v) (selSet sel) ∧
  forallb (λ r, reqMatches r labels) (selRequirements sel) = true.

#[export] Instance selects_dec sel labels : Decision (selects sel labels).
Proof. unfold selects. apply _. Defined.

(** Listing in [NamespaceAll] lists every namespace. *)
Definition inNamespace (namespace n : string) : Prop :=
  namespace = NamespaceAll ∨ n = namespace.

Definition listProjects (namespace : string) (sel : Selector) (s : Store) : list Project :=
  filter (λ p, inNamespace namespace (Namespace (projectMeta p))
               ∧ selects sel (Labels (projectMeta p))) (projects s).






(** The RoleBindings that the clean-up for [binding] is to delete: those in
    the namespace of a project of the binding's namespace that carry the
    binding's own key with the value [CrtbInProjectBindingOwner]. *)
Definition ownedBy (binding : ClusterRoleTemplateBinding) (s : Store)
    (kv : string * string * gmap string string) : Prop :=
  kv.1.1 ∈ (Name ∘ projectMeta) <$> listProjects (Namespace (crtbMeta binding)) Everything s
  ∧ kv.2 !! GetRTBLabel (crtbMeta binding) = Some CrtbInProjectBindingOwner.

#[export] Instance ownedBy_dec binding s kv : Decision (ownedBy binding s kv).
Proof. unfold ownedBy. apply _. Defined.

End Store.

(** *** More readings of a trace *)

(** The role name, binding key and owner flag handed to
    [ensureClusterMembershipBinding], and the answer of a successful role
    check. *)
Definition memberEnsured (ev : Event Call) : option (string * string * bool) :=
  match ev with
  | Ev c _ =>
      match c with
      | mgr_ensureClusterMembershipBinding roleName key _ makeOwner _ =>
          Some (roleName, key, makeOwner)
      | _ => None
      end
  end.

Definition rolesChecked (ev : Event Call) : option bool :=
  match ev with
  | Ev c x =>
      match c in Call X return X → option bool with
      | mgr_checkReferencedRoles _ _ _ =>
          λ r, match r with Ok isOwner => Some isOwner | Err _ => None end
      | _ => λ _, None
      end x
  end.

(** The three stages of [Updated]: subject resolution (0), label migration
    (1), synthesis of the bindings (2).  Calls that belong to [Remove] only
    are put after them (3). *)
Definition phase (ev : Event Call) : nat :=
  match ev with
  | Ev c _ =>
      match c with
      | userMGR_EnsureUser _ _ | userLister_Get _ _ => 0
      | crbLister_List _ _ | crbClient_Get _ | crbClient_Update _
      | rbLister_List _ _ | rbClient_GetNamespaced _ _ | rbClient_Update _
      | crtbClient_GetNamespaced _ _ | crtbClient_Update _ => 1
      | clusterLister_Get _ _ | mgr_checkReferencedRoles _ _ _
      | mgr_ensureClusterMembershipBinding _ _ _ _ _
      | mgr_grantManagementPlanePrivileges _ _ _ _
      | mgr_grantManagementClusterScopedPrivilegesInProjectNamespace _ _ _ _ _
      | projectLister_List _ _ | logrus_Warnf _ => 2
      | mgr_reconcileClusterMembershipBindingForDelete _ _
      | mgr_removeAuthV2Permissions _ _
      | rbClient_DeleteNamespaced _ _ | logrus_Infof _ => 3
      end
  end.

(** Calls that create, change or grant something. *)
Definition isGrantOrUpdate (ev : Event Call) : bool :=
  match ev with
  | Ev c _ =>
      match c with
      | userMGR_EnsureUser _ _
      | mgr_ensureClusterMembershipBinding _ _ _ _ _
      | mgr_grantManagementPlanePrivileges _ _ _ _
      | mgr_grantManagementClusterScopedPrivilegesInProjectNamespace _ _ _ _ _
      | rbClient_Update _ | crbClient_Update _ | crtbClient_Update _ => true
      | _ => false
      end
  end.

(** The error of a failed step of [Remove]. *)
Definition removeFailure (ev : Event Call) : option error :=
  match ev with
  | Ev c x =>
      match c in Call X return X → option error with
      | mgr_reconcileClusterMembershipBindingForDelete _ _ => λ e, e
      | mgr_removeAuthV2Permissions _ _ => λ e, e
      | rbClient_DeleteNamespaced _ _ => λ e, e
      | projectLister_List _ _ => λ r, match r with Err e => Some e | Ok _ => None end
      | rbLister_List _ _ => λ r, match r with Err e => Some e | Ok _ => None end
      | _ => λ _, None
      end x
  end.

(** The RoleBindings answered by [rbLister.List], each with the namespace
    that was listed, and the RoleBinding a delete is asked for. *)
Definition listedRoleBindings (ev : Event Call) : list (string * string) :=
  match ev with
  | Ev c x =>
      match c in Call X return X → list (string * string) with
      | rbLister_List ns _ =>
          λ r, match r with
               | Ok rbs => (λ rb, (ns, Name (rbMeta rb))) <$> rbs
               | Err _ => []
               end
      | _ => λ _, []
      end x
  end.

Definition deletedRoleBinding (ev : Event Call) : option (string * string) :=
  match ev with
  | Ev c _ =>
      match c with
      | rbClient_DeleteNamespaced ns n => Some (ns, n)
      | _ => None
      end
  end.

(** The selector of a RoleBinding listing. *)
Definition rbSelector (ev : Event Call) : option Selector :=
  match ev with
  | Ev c _ => match c with rbLister_List _ sel => Some sel | _ => None end
  end.

(** A listing of RoleBindings, if [ev] is one, selects on the binding's own
    key with the value [CrtbInProjectBindingOwner]. *)
Definition cleanupSelector (binding : ClusterRoleTemplateBinding) (ev : Event Call) : Prop :=
  ∀ sel, rbSelector ev = Some sel →
         sel = AsSelector {[ GetRTBLabel (crtbMeta binding) := CrtbInProjectBindingOwner ]}.

(** The object answered by a successful [crbClient.Get] or
    [rbClient.GetNamespaced], and the one handed to the matching [Update]. *)
Definition crbFetched (ev : Event Call) : option ClusterRoleBinding :=
  match ev with
  | Ev c x =>
      match c in Call X return X → option ClusterRoleBinding with
      | crbClient_Get _ => λ r, match r with Ok crb => Some crb | Err _ => None end
      | _ => λ _, None
      end x
  end.

Definition crbUpdated (ev : Event Call) : option ClusterRoleBinding :=
  match ev with
  | Ev c _ => match c with crbClient_Update crb => Some crb | _ => None end
  end.

Definition rbFetched (ev : Event Call) : option RoleBinding :=
  match ev with
  | Ev c x =>
      match c in Call X return X → option RoleBinding with
      | rbClient_GetNamespaced _ _ =>
          λ r, match r with Ok rb => Some rb | Err _ => None end
      | _ => λ _, None
      end x
  end.

Definition rbUpdated (ev : Event Call) : option RoleBinding :=
  match ev with
  | Ev c _ => match c with rbClient_Update rb => Some rb | _ => None end
  end.

(** What the migration does to the metadata it fetched: the labels
    [rtbLabelUpdated] and [key] are set, every other label is kept, and
    nothing but the labels changes. *)
Definition migrated (key value : string) (fetched upd : ObjectMeta) : Prop :=
  upd = withLabels (Labels upd) fetched
  ∧ Labels upd !! rtbLabelUpdated = Some "true"
  ∧ (key ≠ rtbLabelUpdated → Labels upd !! key = Some value)
  ∧ ∀ k, k ≠ key → k ≠ rtbLabelUpdated → Labels upd !! k = Labels fetched !! k.

(** An update of a binding follows the fetch of that binding and writes the
    fetched object back with the migration labels added. *)
Definition writesBack (key : string) (prev : option (Event Call)) (ev : Event Call) : Prop :=
  (∀ upd, crbUpdated ev = Some upd →
     ∃ prevEv fetched,
       prev = Some prevEv ∧ crbFetched prevEv = Some fetched
       ∧ migrated key MembershipBindingOwner (crbMeta fetched) (crbMeta upd))
  ∧ (∀ upd, rbUpdated ev = Some upd →
       ∃ prevEv fetched,
         prev = Some prevEv ∧ rbFetched prevEv = Some fetched
         ∧ migrated key CrtbInProjectBindingOwner (rbMeta fetched) (rbMeta upd)).

Definition isRbListing (ev : Event Call) : bool :=
  match ev with
  | Ev c _ => match c with rbLister_List _ _ => true | _ => false end
  end.

End WithDeps.

(** *** An example world

    The binding key is taken to be [<namespace>_<name>], there are no
    auxiliary label requirements and [ToLower] is used on lower-case names
    only.  In the scripted world below every call succeeds, except that the
    role check answers [roles] and that the calls that name [bad] (a project
    to grant in, a ClusterRoleBinding or RoleBinding to fetch) fail. *)
Definition exampleDeps : Deps :=
  {| Requirement := Empty_set;
     getLabelRequirements := λ _, Ok [];
     GetRTBLabel := λ meta, Namespace meta +:+ "_" +:+ Name meta;
     BuildSubjectFromRTB := λ b,
       Ok {| Kind := "User"; APIGroup := "rbac.authorization.k8s.io";
             subjectName := UserName b; subjectNamespace := "" |};
     projectManagementPlaneResources := {[ "apps" := "project.cattle.io" ]};
     clusterContext := "cluster";
     CRTBRoleBindingID := "auth-prov-v2-crtb-rolebinding";
     ToLower := λ s, s |}.

Definition exampleMeta (namespace name : string) (labels : gmap string string)
  : ObjectMeta :=
  {| Name := name; Namespace := namespace; UID := "uid-" +:+ name; Labels := labels;
     Annotations := {[ "auth.cattle.io/principal-display-name" := "Alice" ]};
     DeletionTimestamp := None |}.

Definition exampleBinding (userName userPrincipalName groupName : string)
  : ClusterRoleTemplateBinding :=
  {| crtbMeta := exampleMeta "c-1" "crtb-1" ∅;
     UserName := userName; UserPrincipalName := userPrincipalName;
     GroupName := groupName; GroupPrincipalName := "";
     ClusterName := "c-1"; RoleTemplateName := "cluster-owner" |}.

Definition exampleProject (name : string) (deleted : option Time) : Project :=
  {| projectMeta := {| Name := name; Namespace := "c-1"; UID := "uid-" +:+ name;
                       Labels := ∅; Annotations := ∅; DeletionTimestamp := deleted |} |}.

Definition exampleProjects : list Project :=
  [ exampleProject "p-1" None;
    exampleProject "p-gone" (Some {| nsec := 1700000000000000000; loc := UTCLoc |});
    exampleProject "p-2" None ].

Definition exampleCRBs : list ClusterRoleBinding :=
  [ {| crbMeta := exampleMeta "" "crb-1" {[ "uid-crtb-1" := MembershipBindingOwnerLegacy ]} |};
    {| crbMeta := exampleMeta "" "crb-2" {[ "uid-crtb-1" := MembershipBindingOwnerLegacy ]} |} ].

Definition exampleRBs : list RoleBinding :=
  [ {| rbMeta := exampleMeta "p-1" "rb-1" {[ "uid-crtb-1" := CrtbInProjectBindingOwner ]} |} ].

Definition exampleUser (name : string) : User :=
  {| userMeta := exampleMeta "" name ∅;
     PrincipalIDs := [ "github_user://12345"; "local://" +:+ name; "other://" +:+ name ] |}.

Definition refused : error := StatusError "Forbidden" "refused".

Definition exampleHandler (roles : result bool) (bad : string)
  : handler (Call (H := exampleDeps)) unit :=
  λ X c,
    match c in Call X return unit → X * unit with
    | userMGR_EnsureUser _ _ => λ w, (Ok (exampleUser "u-ensured"), w)
    | userLister_Get _ n => λ w, (Ok (exampleUser n), w)
    | clusterLister_Get _ n => λ w, (Ok (Some {| clusterMeta := exampleMeta "" n ∅ |}), w)
    | projectLister_List _ _ => λ w, (Ok exampleProjects, w)
    | mgr_checkReferencedRoles _ _ _ => λ w, (roles, w)
    | mgr_ensureClusterMembershipBinding _ _ _ _ _ => λ w, (None, w)
    | mgr_grantManagementPlanePrivileges _ _ _ _ => λ w, (None, w)
    | mgr_grantManagementClusterScopedPrivilegesInProjectNamespace _ p _ _ _ =>
        λ w, (if decide (p = bad) then Some refused else None, w)
    | mgr_reconcileClusterMembershipBindingForDelete _ _ => λ w, (None, w)
    | mgr_removeAuthV2Permissions _ _ => λ w, (None, w)
    | rbLister_List _ _ => λ w, (Ok exampleRBs, w)
    | rbClient_GetNamespaced ns n =>
        λ w, (if decide (n = bad) then Err refused
              else Ok {| rbMeta := exampleMeta ns n ∅ |}, w)
    | rbClient_Update rb => λ w, (Ok rb, w)
    | rbClient_DeleteNamespaced _ _ => λ w, (None, w)
    | crbLister_List _ _ => λ w, (Ok exampleCRBs, w)
    | crbClient_Get n =>
        λ w, (if decide (n = bad) then Err refused
              else Ok {| crbMeta := exampleMeta "" n ∅ |}, w)
    | crbClient_Update crb => λ w, (Ok crb, w)
    | crtbClient_GetNamespaced _ _ => λ w, (Ok (exampleBinding "alice" "" ""), w)
    | crtbClient_Update crtb => λ w, (Ok crtb, w)
    | logrus_Warnf _ | logrus_Infof _ => λ w, (tt, w)
    end.

(** The same world, except that the listing of the RoleBindings fails. *)
Definition rbListingFails (inner : handler (Call (H := exampleDeps)) unit)
  : handler (Call (H := exampleDeps)) unit :=
  λ X c,
    match c in Call X return unit → X * unit with
    | rbLister_List _ _ => λ w, (Err (errorString "listing failed"), w)
    | c' => inner _ c'
    end.


End Auth.

(** ** The token store (package tokens) *)

Module Tokens.

Definition tokenNamespace : string := "cattle-token-data".

(** [RancherToken], declared next to the store: all spec and status fields
    are strings, as [secretFromToken] stores them in [StringData]. *)
Record RancherTokenSpec : Type := {
  UserID : string; ClusterName : string; TTL : string; Enabled : string
}.

Record RancherTokenStatus : Type := {
  PlaintextToken : string; HashedToken : string
}.

Record RancherToken : Type := {
  Name : string;
  Namespace : string;
  Spec : RancherTokenSpec;
  Status : RancherTokenStatus
}.

Definition withStatus (st : RancherTokenStatus) (t : RancherToken) : RancherToken :=
  {| Name := Name t; Namespace := Namespace t; Spec := Spec t; Status := st |}.

Definition withPlaintextToken (v : string) (t : RancherToken) : RancherToken :=
  withStatus {| PlaintextToken := v; HashedToken := HashedToken (Status t) |} t.

Definition withHashedToken (v : string) (t : RancherToken) : RancherToken :=
  withStatus {| PlaintextToken := PlaintextToken (Status t); HashedToken := v |} t.

(** [corev1.Secret]: [Data] holds byte strings. *)
Record Secret : Type := {
  secretNamespace : string;
  secretName : string;
  StringData : gmap string string;
  Data : gmap string string
}.

(** [user.Info]. *)
Record UserInfo : Type := {
  GetName : string; GetUID : string; GetGroups : list string
}.

(** [authv1.SubjectAccessReview]. *)
Record ResourceAttributes : Type := {
  Verb : string; Resource : string; Group : string
}.

Record SubjectAccessReview : Type := {
  sarUser : string;
  sarGroups : list string;
  sarUID : string;
  sarResourceAttributes : ResourceAttributes;
  Allowed : bool
}.

(** The secret client and cache, the access-review client, the random
    token generator and the hasher. *)
Inductive Call : Type → Type :=
| randomtoken_Generate : Call (result string)
| hasher_CreateHash (secretKey : string) : Call (result string)
| secretClient_Create (secret : Secret) : Call (result Secret)
| secretClient_Update (secret : Secret) : Call (result Secret)
| secretClient_Delete (namespace name : string) : Call (option error)
| secretCache_Get (namespace name : string) : Call (result Secret)
| secretCache_List (namespace : string) : Call (result (list Secret))
| sar_Create (sar : SubjectAccessReview) : Call (result SubjectAccessReview).

Definition secretFromToken (token : RancherToken) : Secret :=
  {| secretNamespace := tokenNamespace;
     secretName := Name token;
     StringData :=
       <[ "hashedToken" := HashedToken (Status token) ]>
      (<[ "enabled" := Enabled (Spec token) ]>
      (<[ "ttl" := TTL (Spec token) ]>
      (<[ "clusterName" := ClusterName (Spec token) ]>
      (<[ "userID" := UserID (Spec token) ]> ∅))));
     Data := ∅ |}.

Definition tokenFromSecret (secret : Secret) : RancherToken :=
  {| Name := secretName secret;
     Namespace := "";
     Spec := {| UserID := index (Data secret) "userID";
                ClusterName := index (Data secret) "clusterName";
                TTL := index (Data secret) "ttl";
                Enabled := index (Data secret) "enabled" |};
     Status := {| PlaintextToken := "";
                  HashedToken := index (Data secret) "hashedToken" |} |}.

(** The review built by [userHasFullPermissions]: every verb on
    [ranchertokens]. *)
Definition fullPermissionsReview (user : UserInfo) : SubjectAccessReview :=
  {| sarUser := GetName user; sarGroups := GetGroups user; sarUID := GetUID user;
     sarResourceAttributes :=
       {| Verb := "*"; Resource := "ranchertokens"; Group := "ext.cattle.io" |};
     Allowed := false |}.

Definition userHasFullPermissions (user : UserInfo) : Prog Call (bool * option error) :=
  let sar := fullPermissionsReview user in
  r <- call (sar_Create sar);;
  match r with
  | Err err => mret (false, Some (Errorf_w "uanble to create SAR: " err))
  | Ok sar => mret (Allowed sar, None)
  end.

Definition otherUserError (userInfo : UserInfo) (token : RancherToken) : error :=
  errorString ("can't create token for other user " +:+ GetName userInfo
               +:+ " since user " +:+ UserID (Spec token)
               +:+ " doesn't have * on ranchertokens").

(** The check shared by [Create], [Update], [Get] and [Delete]: it is made
    only when the token belongs to another user. *)
Definition checkOtherUser (userInfo : UserInfo) (token : RancherToken)
  : Prog Call (option error) :=
  if decide (UserID (Spec token) ≠ GetName userInfo) then
    r <- userHasFullPermissions userInfo;;
    match r with
    | (_, Some err) => mret (Some (Errorf_w "unable to check if user has * on tokens: " err))
    | (authed, None) =>
        if negb authed then mret (Some (otherUserError userInfo token)) else mret None
    end
  else mret None.

(** The first block of [Create]: a value is generated and hashed only when
    the token comes without a plaintext value. *)
Definition generateValue (token : RancherToken)
  : Prog Call (result RancherToken) :=
  if decide (PlaintextToken (Status token) = "") then
    r <- call randomtoken_Generate;;
    match r with
    | Err err => mret (Err (Errorf_w "unable to generate token value: " err))
    | Ok tokenValue =>
        let token := withPlaintextToken tokenValue token in
        r <- call (hasher_CreateHash tokenValue);;
        match r with
        | Err err => mret (Err (Errorf_w "unable to hash token value: " err))
        | Ok hashedValue => mret (Ok (withHashedToken hashedValue token))
        end
    end
  else mret (Ok token).

Definition Create (userInfo : UserInfo) (token : RancherToken)
  : Prog Call (option RancherToken * option error) :=
  r <- generateValue token;;
  match r with
  | Err err => mret (None, Some err)
  | Ok token =>
      e <- checkOtherUser userInfo token;;
      match e with
      | Some err => mret (None, Some err)
      | None =>
          let secret := secretFromToken token in
          r <- call (secretClient_Create secret);;
          match r with
          | Err err => mret (None, Some (Errorf_w "unable to create secret for token: " err))
          | Ok _ => mret (Some (withHashedToken "" token), None)
          end
      end
  end.

Definition Update (userInfo : UserInfo) (token : RancherToken)
  : Prog Call (option RancherToken * option error) :=
  e <- checkOtherUser userInfo token;;
  match e with
  | Some err => mret (None, Some err)
  | None =>
      r <- call (secretCache_Get (Namespace token) (Name token));;
      match r with
      | Err err =>
          mret (None, Some (Errorf_w ("unable to get current token " +:+ Name token +:+ ": ") err))
      | Ok currentSecret =>
          let currentToken := tokenFromSecret currentSecret in
          let token := withHashedToken (HashedToken (Status currentToken)) token in
          let token := withPlaintextToken "" token in
          let secret := secretFromToken token in
          r <- call (secretClient_Update secret);;
          match r with
          | Err err =>
              mret (None, Some (Errorf_w ("unable to update token " +:+ Name token +:+ ": ") err))
          | Ok newSecret =>
              let newToken := tokenFromSecret newSecret in
              let newToken := withHashedToken "" newToken in
              let newToken := withPlaintextToken "" newToken in
              mret (Some newToken, None)
          end
      end
  end.

Definition Get (userInfo : UserInfo) (name : string)
  : Prog Call (option RancherToken * option error) :=
  r <- call (secretCache_Get tokenNamespace name);;
  match r with
  | Err err => mret (None, Some (Errorf_w ("unable to get token " +:+ name +:+ ": ") err))
  | Ok currentSecret =>
      let token := tokenFromSecret currentSecret in
      e <- checkOtherUser userInfo token;;
      match e with
      | Some err => mret (None, Some err)
      | None =>
          let token := withHashedToken "" token in
          let token := withPlaintextToken "" token in
          mret (None, None)
      end
  end.

(** The loop of [List]. *)
Fixpoint listTokens (authed : bool) (userInfo : UserInfo) (secrets : list Secret)
    (tokens : list RancherToken) : list RancherToken :=
  match secrets with
  | [] => tokens
  | secret :: secrets' =>
      let token := tokenFromSecret secret in
      if negb authed && bool_decide (UserID (Spec token) ≠ GetName userInfo)
      then listTokens authed userInfo secrets' tokens
      else listTokens authed userInfo secrets' (tokens ++ [token])
  end.

Definition List (userInfo : UserInfo)
  : Prog Call (option (list RancherToken) * option error) :=
  r <- call (secretCache_List tokenNamespace);;
  match r with
  | Err err => mret (None, Some (Errorf_w "unable to list tokens: " err))
  | Ok secrets =>
      r <- userHasFullPermissions userInfo;;
      match r with
      | (_, Some err) =>
          mret (None, Some (Errorf_w "unable to check if user has * on tokens: " err))
      | (authed, None) => mret (Some (listTokens authed userInfo secrets []), None)
      end
  end.

Definition Delete (userInfo : UserInfo) (name : string) : Prog Call (option error) :=
  r <- call (secretCache_Get tokenNamespace name);;
  match r with
  | Err err =>
      mret (Some (Errorf_w ("unable to confirm secret existence " +:+ name +:+ ": ") err))
  | Ok secret =>
      let token := tokenFromSecret secret in
      e <- checkOtherUser userInfo token;;
      match e with
      | Some err => mret (Some err)
      | None =>
          e <- call (secretClient_Delete tokenNamespace name);;
          match e with
          | Some err =>
              mret (Some (Errorf_w ("unable to delete secret " +:+ name +:+ ": ") err))
          | None => mret None
          end
      end
  end.

(** *** Reading a trace *)

(** The secret handed to [secretClient.Create] or [secretClient.Update]. *)
Definition writtenSecret (ev : Event Call) : option Secret :=
  match ev with
  | Ev c _ =>
      match c with
      | secretClient_Create s | secretClient_Update s => Some s
      | _ => None
      end
  end.

(** The value answered by the generator, and the value hashed together with
    the hash answered. *)
Definition generated (ev : Event Call) : option string :=
  match ev with
  | Ev c x =>
      match c in Call X return X → option string with
      | randomtoken_Generate => λ r, match r with Ok v => Some v | Err _ => None end
      | _ => λ _, None
      end x
  end.

Definition hashedValue (ev : Event Call) : option (string * string) :=
  match ev with
  | Ev c x =>
      match c in Call X return X → option (string * string) with
      | hasher_CreateHash v => λ r, match r with Ok hv => Some (v, hv) | Err _ => None end
      | _ => λ _, None
      end x
  end.

(** The secret answered by a successful [secretCache.Get]. *)
Definition cachedSecret (ev : Event Call) : option Secret :=
  match ev with
  | Ev c x =>
      match c in Call X return X → option Secret with
      | secretCache_Get _ _ => λ r, match r with Ok s => Some s | Err _ => None end
      | _ => λ _, None
      end x
  end.

Definition isGenerateOrHash (ev : Event Call) : bool :=
  match ev with
  | Ev c _ =>
      match c with
      | randomtoken_Generate | hasher_CreateHash _ => true
      | _ => false
      end
  end.

(** *** More readings of a trace *)

(** A call that writes to the secret store. *)
Definition isWrite (ev : Event Call) : bool :=
  match ev with
  | Ev c _ =>
      match c with
      | secretClient_Create _ | secretClient_Update _ | secretClient_Delete _ _ => true
      | _ => false
      end
  end.


Definition reviewAllowed (ev : Event Call) : option bool :=
  match ev with
  | Ev c x =>
      match c in Call X return X → option bool with
      | sar_Create _ => λ r, match r with Ok sar => Some (Allowed sar) | Err _ => None end
      | _ => λ _, None
      end x
  end.

(** The namespace and name a delete is asked for. *)
Definition deletedSecret (ev : Event Call) : option (string * string) :=
  match ev with
  | Ev c _ => match c with secretClient_Delete ns n => Some (ns, n) | _ => None end
  end.

(** The answer to a delete. *)
Definition deleteAnswered (ev : Event Call) : option (option error) :=
  match ev with
  | Ev c x =>
      match c in Call X return X → option (option error) with
      | secretClient_Delete _ _ => λ e, Some e
      | _ => λ _, None
      end x
  end.

(** In the words of [List]: a user sees their own tokens, and every token
    with full permissions. *)
Definition visibleTo (authed : bool) (userInfo : UserInfo) (secret : Secret) : Prop :=
  authed = true ∨ UserID (Spec (tokenFromSecret secret)) = GetName userInfo.

#[export] Instance visibleTo_dec authed userInfo secret :
  Decision (visibleTo authed userInfo secret).
Proof. unfold visibleTo. apply _. Defined.

(** The token as it reads back from storage: name, spec and hash. *)
Definition storedToken (token : RancherToken) : RancherToken :=
  {| Name := Name token; Namespace := ""; Spec := Spec token;
     Status := {| PlaintextToken := ""; HashedToken := HashedToken (Status token) |} |}.

(** *** An example world

    Every call succeeds: the generator yields a fixed value, the hasher
    prefixes it, the secret client echoes what it is given, the cache holds
    one secret and the review allows. *)
Definition exampleSecret : Secret :=
  {| secretNamespace := tokenNamespace; secretName := "token-1"; StringData := ∅;
     Data := <[ "hashedToken" := "$1:stored" ]> (<[ "userID" := "user-1" ]> ∅) |}.

Definition exampleHandler : handler Call unit :=
  λ X c,
    match c in Call X return unit → X * unit with
    | randomtoken_Generate => λ w, (Ok "generated-value", w)
    | hasher_CreateHash v => λ w, (Ok ("$1:" +:+ v), w)
    | secretClient_Create s => λ w, (Ok s, w)
    | secretClient_Update s => λ w, (Ok s, w)
    | secretClient_Delete _ _ => λ w, (None, w)
    | secretCache_Get _ _ => λ w, (Ok exampleSecret, w)
    | secretCache_List _ => λ w, (Ok [exampleSecret], w)
    | sar_Create sar =>
        λ w, (Ok {| sarUser := sarUser sar; sarGroups := sarGroups sar;
                    sarUID := sarUID sar;
                    sarResourceAttributes := sarResourceAttributes sar;
                    Allowed := true |}, w)
    end.

Definition exampleUser : UserInfo :=
  {| GetName := "user-1"; GetUID := "uid-1"; GetGroups := [] |}.

Definition exampleToken (plaintext hashed : string) : RancherToken :=
  {| Name := "token-1"; Namespace := tokenNamespace;
     Spec := {| UserID := "user-1"; ClusterName := "c-1"; TTL := "3600";
                Enabled := "true" |};
     Status := {| PlaintextToken := plaintext; HashedToken := hashed |} |}.

End Tokens.

(** ** pkg/ext/stores/useractivity/store.go *)

Module UserActivity.

(** Go's [int64], and so [time.Duration]: integers wrap around. *)
Definition int64 (z : Z) : Z := ((z + 2 ^ 63) mod 2 ^ 64 - 2 ^ 63)%Z.

(** [time.Minute], in nanoseconds. *)
Definition Minute : Z := 60000000000%Z.

(** [a * b] on [time.Duration]. *)
Definition Duration_mul (a b : Z) : Z := int64 (a * b).

(** [t.Add(d)] and [t.UTC()].  An instant is kept as an unbounded count of
    nanoseconds; the saturation of [Add] at the far ends of [time.Time]'s
    range of years is not modelled. *)
Definition Time_Add (t : Time) (d : Z) : Time :=
  {| nsec := (nsec t + d)%Z; loc := loc t |}.
Definition Time_UTC (t : Time) : Time := {| nsec := nsec t; loc := UTCLoc |}.

(** [v3.Token], the fields used here. *)
Record Token : Type := {
  tokenName : string;
  UserID : string;
  LastIdleTimeout : Time
}.

Definition withLastIdleTimeout (t : Time) (token : Token) : Token :=
  {| tokenName := tokenName token; UserID := UserID token; LastIdleTimeout := t |}.

Record UserActivityStatus : Type := {
  CurrentTimeout : string;
  LastActivity : string
}.

Record UserActivity : Type := {
  Name : string;
  TokenId : string;
  Status : UserActivityStatus
}.

Definition withStatus (st : UserActivityStatus) (ua : UserActivity) : UserActivity :=
  {| Name := Name ua; TokenId := TokenId ua; Status := st |}.

(** Taken from outside this file: [setUserActivityName] and
    [getUserActivityName] of the same package, and [metav1.Time.String]. *)
Class Deps : Type := {
  setUserActivityName : string → string → result string;
  getUserActivityName : string → result (string * string);
  Time_String : Time → string
}.

Section WithDeps.
Context `{Deps}.

(** The token controller, the clock and the setting read by [Create]. *)
Inductive Call : Type → Type :=
| tokenController_Get (name : string) : Call (result Token)
| tokenController_Update (token : Token) : Call (result Token)
| time_Now : Call Time
| AuthUserSessionIdleTTLMinutes_GetInt : Call Z.

Definition create (userActivity : UserActivity) (token : Token) (user : string)
    (lastActivity : Time) (authUserSessionIdleTTLMinutes : Z)
  : Prog Call (option UserActivity * option error) :=
  match setUserActivityName user (tokenName token) with
  | Err err => mret (None, Some (Errorf_v "failed to set useractivity name: " err))
  | Ok expectedName =>
      if decide (Name userActivity ≠ expectedName) then
        mret (None, Some (errorString ("useractivity name mismatch: have "
                                       +:+ Name userActivity +:+ " - expected "
                                       +:+ expectedName)))
      else if decide (tokenName token ≠ TokenId userActivity) then
        mret (None, Some (errorString ("token name mismatch: have "
                                       +:+ tokenName token +:+ " - expected "
                                       +:+ TokenId userActivity)))
      else
        let newIdleTimeout :=
          Time_UTC (Time_Add lastActivity
                      (Duration_mul Minute (int64 authUserSessionIdleTTLMinutes))) in
        let token := withLastIdleTimeout newIdleTimeout token in
        let userActivity :=
          withStatus {| CurrentTimeout := Time_String newIdleTimeout;
                        LastActivity := Time_String lastActivity |} userActivity in
        r <- call (tokenController_Update token);;
        match r with
        | Err err => mret (None, Some (Errorf_v "failed to update token: " err))
        | Ok _ => mret (Some userActivity, None)
        end
  end.

(** [Create], for an object that is a [*ext.UserActivity]. *)
Definition Create (objUserActivity : UserActivity)
  : Prog Call (option UserActivity * option error) :=
  r <- call (tokenController_Get (TokenId objUserActivity));;
  match r with
  | Err err =>
      mret (None, Some (Errorf_v ("failed to get token " +:+ TokenId objUserActivity +:+ ": ")
                                 err))
  | Ok token =>
      now <- call time_Now;;
      let lastActivity := Time_UTC now in
      idleTimeout <- call AuthUserSessionIdleTTLMinutes_GetInt;;
      create objUserActivity token (UserID token) lastActivity idleTimeout
  end.

Definition get (uaname : string) : Prog Call (option UserActivity * option error) :=
  match getUserActivityName uaname with
  | Err err => mret (None, Some (Errorf_v "wrong useractivity name: " err))
  | Ok (user, token) =>
      r <- call (tokenController_Get token);;
      match r with
      | Err err => mret (None, Some (Errorf_v ("failed to get token " +:+ token +:+ ": ") err))
      | Ok tokenId =>
          if decide (UserID tokenId ≠ user) then
            mret (None, Some (errorString ("user provided mismatches from expected: "
                                           +:+ user +:+ " - " +:+ UserID tokenId)))
          else
            mret (Some {| Name := uaname; TokenId := tokenName tokenId;
                          Status := {| CurrentTimeout := Time_String (LastIdleTimeout tokenId);
                                       LastActivity := "" |} |}, None)
      end
  end.

(** *** Reading a trace *)

(** The token handed to [tokenController.Update]. *)
Definition updatedToken (ev : Event Call) : option Token :=
  match ev with
  | Ev c _ => match c with tokenController_Update t => Some t | _ => None end
  end.

End WithDeps.

(** *** An example world

    The name of a user activity is taken to be [ua_<user>_<token>] and a
    time is shown as its count of nanoseconds; the token controller holds
    one token and accepts every update; the clock and the setting are
    fixed. *)
Definition exampleDeps : Deps :=
  {| setUserActivityName := λ user token, Ok ("ua_" +:+ user +:+ "_" +:+ token);
     getUserActivityName := λ name,
       if decide (name = "ua_user-1_token-1") then Ok ("user-1", "token-1")
       else Err (errorString "malformed useractivity name");
     Time_String := λ t, pretty (nsec t) |}.

Definition exampleNow : Time := {| nsec := 1700000000000000000; loc := UTCLoc |}.

Definition exampleToken : Token :=
  {| tokenName := "token-1"; UserID := "user-1";
     LastIdleTimeout := {| nsec := 0; loc := UTCLoc |} |}.

Definition exampleActivity : UserActivity :=
  {| Name := "ua_user-1_token-1"; TokenId := "token-1";
     Status := {| CurrentTimeout := ""; LastActivity := "" |} |}.

Definition exampleHandler : handler (@Call) unit :=
  λ X c,
    match c in Call X return unit → X * unit with
    | tokenController_Get _ => λ w, (Ok exampleToken, w)
    | tokenController_Update t => λ w, (Ok t, w)
    | time_Now => λ w, (exampleNow, w)
    | AuthUserSessionIdleTTLMinutes_GetInt => λ w, (960%Z, w)
    end.

End UserActivity.

(** ** pkg/ext/apiserver.go *)

Module Ext.

(** [strings.Trim], [strings.Split] and [strings.Join] on byte strings.  The
    cut set of [Trim] is read as a set of bytes, and [Split] is given for a
    separator of one byte, which is how this file calls them. *)
Definition inCutset (c : ascii) (cutset : string) : bool :=
  bool_decide (c ∈ String.list_ascii_of_string cutset).

Fixpoint TrimLeft (s cutset : string) : string :=
  match s with
  | String c s' => if inCutset c cutset then TrimLeft s' cutset else s
  | EmptyString => s
  end.

Fixpoint TrimRight (s cutset : string) : string :=
  match s with
  | String c s' =>
      match TrimRight s' cutset with
      | EmptyString => if inCutset c cutset then "" else String c ""
      | r => String c r
      end
  | EmptyString => ""
  end.

Definition Trim (s cutset : string) : string := TrimRight (TrimLeft s cutset) cutset.

Fixpoint Split (s : string) (sep : ascii) : list string :=
  match s with
  | EmptyString => [""]
  | String c s' =>
      if decide (c = sep) then "" :: Split s' sep
      else match Split s' sep with
           | x :: l => String c x :: l
           | [] => [String c ""]
           end
  end.

Fixpoint Join (elems : list string) (sep : string) : string :=
  match elems with
  | [] => ""
  | [s] => s
  | s :: elems' => s +:+ sep +:+ Join elems' sep
  end.

(** A function returns, or panics on an index out of range. *)
Inductive outcome (T : Type) : Type :=
| Returned (v : T)
| Panicked.
Arguments Returned {T} v.
Arguments Panicked {T}.

(** [list[i]] on a slice. *)
Definition at_index {T} (list : list T) (i : nat) : outcome T :=
  match list !! i with
  | Some x => Returned x
  | None => Panicked
  end.

Definition splitNamespaceResource (path : string)
  : outcome (string * string * option error) :=
  let list := Split (Trim path "/") "/" in
  if decide (length list < 4) then
    Returned ("", "", Some (errorString ("could not find namespace and resource in path: "
                                         +:+ path)))
  else
    let last := drop 3 list in
    match at_index last 0 with
    | Panicked => Panicked
    | Returned last0 =>
        if decide (last0 ≠ "namespaces") then
          Returned ("", "", Some (errorString ("wrong format in path: " +:+ path)))
        else
          match at_index last 1 with
          | Panicked => Panicked
          | Returned last1 =>
              match at_index last 2 with
              | Panicked => Panicked
              | Returned last2 => Returned (last1, last2, None)
              end
          end
    end.

Definition splitResource (path : string) : outcome (string * option error) :=
  let list := Split (Trim path "/") "/" in
  if decide (length list < 4) then
    Returned ("", Some (errorString ("could not find resource in path: " +:+ path)))
  else
    let last := drop (length list - 1) list in
    match at_index last 0 with
    | Panicked => Panicked
    | Returned last0 => Returned (last0, None)
    end.

(** [schema.GroupVersion] and [schema.GroupVersionResource], and of
    [metav1.APIResource] and [metav1.APIResourceList] the fields used here.
    The keys of the maps are kept as tuples. *)
Record GroupVersion : Type := { Group : string; Version : string }.

Definition GroupVersionResource : Type := string * string * string.

Definition gvKey (groupVersion : GroupVersion) : string * string :=
  (Group groupVersion, Version groupVersion).

Definition GroupVersion_String (groupVersion : GroupVersion) : string :=
  if decide (0 < String.length (Group groupVersion))%nat
  then Group groupVersion +:+ "/" +:+ Version groupVersion
  else Version groupVersion.

Record APIResource : Type := { Name : string; Namespaced : bool }.

Record APIResourceList : Type := {
  listGroupVersion : string;
  APIResources : list APIResource
}.

Section Server.
(** The handlers a resource is registered with are kept abstract. *)
Context {CRDHandler : Type}.

Record APIServer : Type := {
  resourceList : gmap (string * string) APIResourceList;
  delegates : gmap GroupVersionResource CRDHandler;
  namespacedDelegates : gmap GroupVersionResource CRDHandler
}.

Definition NewAPIServer : APIServer :=
  {| resourceList := ∅; delegates := ∅; namespacedDelegates := ∅ |}.

(** [AddAPIResource]; the log lines are left out. *)
Definition AddAPIResource (groupVersion : GroupVersion) (resource : APIResource)
    (handler : CRDHandler) (s : APIServer) : APIServer :=
  let resourceList1 :=
    match resourceList s !! gvKey groupVersion with
    | Some _ => resourceList s
    | None =>
        <[gvKey groupVersion :=
            {| listGroupVersion := GroupVersion_String groupVersion;
               APIResources := [] |}]> (resourceList s)
    end in
  let resourceList2 :=
    match resourceList1 !! gvKey groupVersion with
    | Some list =>
        <[gvKey groupVersion :=
            {| listGroupVersion := listGroupVersion list;
               APIResources := APIResources list ++ [resource] |}]> resourceList1
    | None => resourceList1
    end in
  let gvr : GroupVersionResource :=
    (Group groupVersion, Version groupVersion, Name resource) in
  if Namespaced resource then
    {| resourceList := resourceList2; delegates := delegates s;
       namespacedDelegates := <[gvr := handler]> (namespacedDelegates s) |}
  else
    {| resourceList := resourceList2; delegates := <[gvr := handler]> (delegates s);
       namespacedDelegates := namespacedDelegates s |}.

(** What a resource handler does with a request: it answers 404, with the
    error it logs if any, or hands the request to a delegate with a
    namespace and returns what the delegate returns; or it panics. *)
Inductive Response : Type :=
| FourZeroFour (err : option error)
| Delegate (delegate : CRDHandler) (namespace : string)
| Panic.

Definition namespacedResourceHandler (s : APIServer) (groupVersion : GroupVersion)
    (path : string) : Response :=
  match splitNamespaceResource path with
  | Panicked => Panic
  | Returned (_, _, Some err) => FourZeroFour (Some err)
  | Returned (namespace, resource, None) =>
      let gvr : GroupVersionResource :=
        (Group groupVersion, Version groupVersion, resource) in
      match namespacedDelegates s !! gvr with
      | None => FourZeroFour None
      | Some delegate => Delegate delegate namespace
      end
  end.

Definition resourceHandler (s : APIServer) (groupVersion : GroupVersion)
    (path : string) : Response :=
  match splitResource path with
  | Panicked => Panic
  | Returned (_, Some err) => FourZeroFour (Some err)
  | Returned (resource, None) =>
      let gvr : GroupVersionResource :=
        (Group groupVersion, Version groupVersion, resource) in
      match delegates s !! gvr with
      | None => FourZeroFour None
      | Some delegate => Delegate delegate ""
      end
  end.

End Server.
Arguments APIServer CRDHandler : clear implicits.
Arguments Response CRDHandler : clear implicits.

(** The path prefixes under which [RegisterRoutes] puts
    [namespacedResourceHandler] and [resourceHandler] for a group version. *)
Definition namespacedPattern (groupVersion : GroupVersion) : string :=
  "/apis/" +:+ GroupVersion_String groupVersion +:+ "/namespaces/".

Definition resourcePattern (groupVersion : GroupVersion) : string :=
  "/apis/" +:+ GroupVersion_String groupVersion +:+ "/".

(** *** Paths

    A segment of a path is a non-empty string without a slash. *)
Definition segment (s : string) : Prop :=
  s ≠ "" ∧ Forall (λ c, c ≠ "/"%char) (String.list_ascii_of_string s).

#[export] Instance segment_dec s : Decision (segment s).
Proof. unfold segment. apply _. Defined.

End Ext.

(** ** Further readings of runs *)

Section Traces.
Context {E : Type → Type}.

(** A failure, as read by [f], ends the run and is its error. *)
Definition finalFailure (f : Event E → option error) (tr : list (Event E))
    (r : option error) : Prop :=
  ∀ pre ev post e, tr = pre ++ ev :: post → f ev = Some e → post = [] ∧ r = Some e.

(** [P prev ev] holds of every call [ev] the program can issue, where [prev]
    is the call issued just before it ([first] before the first one). *)
Fixpoint alwaysAfter {R} (P : option (Event E) → Event E → Prop)
    (first : option (Event E)) (p : Prog E R) : Prop :=
  match p with
  | Ret _ => True
  | Vis c k => ∀ x, P first (Ev c x) ∧ alwaysAfter P (Some (Ev c x)) (k x)
  end.

(** The same of a trace. *)
Fixpoint chained (P : option (Event E) → Event E → Prop)
    (first : option (Event E)) (tr : list (Event E)) : Prop :=
  match tr with
  | [] => True
  | ev :: tr' => P first ev ∧ chained P (Some ev) tr'
  end.

End Traces.

(** * Properties *)

(** ** Running programs *)

Section RunFacts.
Context {E : Type → Type} {W : Type} (h : handler E W).

Lemma run_bind {A B} (p : Prog E A) (f : A → Prog E B) (w : W) :
  run h (bind p f) w =
  let o1 := run h p w in
  let o2 := run h (f (ret o1)) (post o1) in
  {| ret := ret o2; post := post o2; log := log o1 ++ log o2 |}.
Proof.
  revert w. induction p as [a|X c k IH]; intros w; simpl.
  - by destruct (run h (f a) w).
  - by rewrite IH.
Qed.

Lemma run_check (p k : Prog E (option error)) (w : W) :
  run h (check p k) w =
  let o1 := run h p w in
  match ret o1 with
  | Some err => {| ret := Some err; post := post o1; log := log o1 |}
  | None =>
      let o2 := run h k (post o1) in
      {| ret := ret o2; post := post o2; log := log o1 ++ log o2 |}
  end.
Proof.
  unfold check. rewrite run_bind. simpl.
  destruct (ret (run h p w)); simpl; [by rewrite app_nil_r|done].
Qed.

Lemma run_checked {T} (p : Prog E (result T)) (k : T → Prog E (option error)) (w : W) :
  run h (checked p k) w =
  let o1 := run h p w in
  match ret o1 with
  | Err err => {| ret := Some err; post := post o1; log := log o1 |}
  | Ok v =>
      let o2 := run h (k v) (post o1) in
      {| ret := ret o2; post := post o2; log := log o1 ++ log o2 |}
  end.
Proof.
  unfold checked. rewrite run_bind. simpl.
  destruct (ret (run h p w)); simpl; [done|by rewrite app_nil_r].
Qed.

Lemma always_bind {A B} (P : Event E → Prop) (p : Prog E A) (f : A → Prog E B) :
  always P p → (∀ a, always P (f a)) → always P (bind p f).
Proof.
  intros Hp Hf. induction p as [a|X c k IH]; simpl in *; [by apply Hf|].
  intros x. destruct (Hp x) as [Hc Hk]. split; [done|]. by apply IH.
Qed.

Lemma always_run {R} (P : Event E → Prop) (p : Prog E R) (w : W) :
  always P p → Forall P (log (run h p w)).
Proof.
  revert w. induction p as [a|X c k IH]; intros w Hp; simpl; [by constructor|].
  destruct (Hp (h X c w).1) as [Hc Hk]. constructor; [done|]. by apply IH.
Qed.

Lemma always_OnError (P : Event E → Prop) steps retriable
    (fn : Prog E (option error)) lastErr :
  always P fn → always P (OnError steps retriable fn lastErr).
Proof.
  intros Hfn. revert lastErr. induction steps as [|n IH]; intros lastErr; simpl; [done|].
  apply always_bind; [done|]. intros [err|]; simpl; [|done].
  destruct (retriable err); simpl; [apply IH|done].
Qed.

Lemma run_call {X} (c : E X) (w : W) :
  run h (call c) w =
  {| ret := (h _ c w).1; post := (h _ c w).2; log := [Ev c (h _ c w).1] |}.
Proof. done. Qed.

Lemma run_all_always {R} (P : Event E → Prop) (ps : list (Prog E R)) (w : W) :
  Forall (always P) ps → Forall P (log (run_all h ps w)).
Proof.
  intros Hps. revert w. induction Hps as [|p ps Hp _ IH]; intros w; simpl; [done|].
  apply Forall_app. split; [by apply always_run|apply IH].
Qed.

Lemma run_all_length {R} (ps : list (Prog E R)) (w : W) :
  length (ret (run_all h ps w)) = length ps.
Proof. revert w. induction ps as [|p ps IH]; intros w; simpl; [done|]. by rewrite IH. Qed.

End RunFacts.

(** Proof steps shared below: take the answer of the handler to the next
    call ([answer]), to every call with a case split on the answer
    ([answers]), and go through the members of an explicit list. *)
#[local] Ltac answer :=
  match goal with
  | |- context [?h ?X ?c ?w] =>
      lazymatch type of h with handler _ _ => idtac end;
      is_var w;
      let r := fresh "r" in
      let w' := fresh "w" in
      destruct (h X c w) as [r w'] eqn:?; simpl in *
  end.

#[local] Ltac answers :=
  repeat match goal with
    | |- context [?h ?X ?c ?w] =>
        lazymatch type of h with handler _ _ => idtac end;
        is_var w;
        let r := fresh "r" in
        let w' := fresh "w" in
        destruct (h X c w) as [r w'] eqn:?; try destruct r; simpl in *
    end.

#[local] Ltac members Hin :=
  repeat (apply elem_of_cons in Hin as [->|Hin]; [try done|]);
  try (by apply elem_of_nil in Hin).

(** ** The CRTB lifecycle *)

Module AuthSpec.
Import Auth.

Section Facts.
Context `{Deps}.

#[local] Ltac decided :=
  repeat first
    [ rewrite decide_True by (intuition congruence)
    | rewrite decide_False by (intuition congruence) ].

Lemma scanPrincipalIDs_first (ids : list string) (binding : ClusterRoleTemplateBinding) :
  scanPrincipalIDs ids binding =
  match firstWithSuffix (UserName binding) ids with
  | Some p => withUserPrincipalName p binding
  | None => binding
  end.
Proof.
  unfold firstWithSuffix. induction ids as [|p ids IH]; simpl; [done|].
  case_decide as Hp.
  - by rewrite Hp.
  - destruct (HasSuffix p (UserName binding)); [done|].
    rewrite IH. by destruct (list_find _ ids) as [[]|].
Qed.

(** C3. [reconcileSubject] follows the four cases of the subject contract:
    a group binding, or a binding with both user name and user principal
    name, is returned as it is without any call; with only the principal
    name, [EnsureUser] is the one call made and the binding returned has the
    name of the user it yields as its [UserName] and every other field as
    given; with only the user name, the user is fetched and the binding
    returned has the first of its principal IDs that ends with the name as
    its [UserPrincipalName] and every other field as given; with no subject
    field set the call fails with the "has no subject" error. *)
Theorem reconcileSubject_contract (binding : ClusterRoleTemplateBinding) :
  ((GroupName binding ≠ "" ∨ GroupPrincipalName binding ≠ "" ∨
    (UserPrincipalName binding ≠ "" ∧ UserName binding ≠ "")) →
   reconcileSubject binding = Ret (Some binding, None))
  ∧
  (GroupName binding = "" → GroupPrincipalName binding = "" →
   UserPrincipalName binding ≠ "" → UserName binding = "" →
   ∀ W (h : handler Call W) (w : W),
     let ensure := userMGR_EnsureUser (UserPrincipalName binding)
                     (index (Annotations (crtbMeta binding))
                            "auth.cattle.io/principal-display-name") in
     let o := run h (reconcileSubject binding) w in
     log o = [Ev ensure (h _ ensure w).1] ∧
     match (h _ ensure w).1 with
     | Ok user =>
         ret o = (Some {| crtbMeta := crtbMeta binding;
                          UserName := Name (userMeta user);
                          UserPrincipalName := UserPrincipalName binding;
                          GroupName := GroupName binding;
                          GroupPrincipalName := GroupPrincipalName binding;
                          ClusterName := ClusterName binding;
                          RoleTemplateName := RoleTemplateName binding |}, None)
     | Err err => ret o = (Some binding, Some err)
     end)
  ∧
  (GroupName binding = "" → GroupPrincipalName binding = "" →
   UserPrincipalName binding = "" → UserName binding ≠ "" →
   ∀ W (h : handler Call W) (w : W),
     let get := userLister_Get "" (UserName binding) in
     let o := run h (reconcileSubject binding) w in
     log o = [Ev get (h _ get w).1] ∧
     match (h _ get w).1 with
     | Ok u =>
         match firstWithSuffix (UserName binding) (PrincipalIDs u) with
         | Some p =>
             ret o = (Some {| crtbMeta := crtbMeta binding;
                              UserName := UserName binding;
                              UserPrincipalName := p;
                              GroupName := GroupName binding;
                              GroupPrincipalName := GroupPrincipalName binding;
                              ClusterName := ClusterName binding;
                              RoleTemplateName := RoleTemplateName binding |}, None)
         | None => ret o = (Some binding, None)
         end
     | Err err => ret o = (Some binding, Some err)
     end)
  ∧
  (GroupName binding = "" → GroupPrincipalName binding = "" →
   UserPrincipalName binding = "" → UserName binding = "" →
   reconcileSubject binding =
   Ret (None, Some (errorString ("ClusterRoleTemplateBinding "
                                 +:+ Name (crtbMeta binding) +:+ " has no subject")))).
Proof.
  unfold reconcileSubject. repeat split; intros; decided; simpl; try done.
  all: destruct (h _ _ w).1 as [u|err]; simpl; try done.
  rewrite scanPrincipalIDs_first. by destruct (firstWithSuffix _ _).
Qed.

(** [reconcileSubject] never returns a nil binding with a nil error. *)
Lemma reconcileSubject_binding_or_error (binding : ClusterRoleTemplateBinding)
    {W} (h : handler Call W) (w : W) :
  ret (run h (reconcileSubject binding) w) ≠ (None, None).
Proof.
  unfold reconcileSubject. repeat case_decide; simpl; try done.
  all: by destruct (h _ _ w).1.
Qed.




Section Loop.
Context {W : Type} (h : handler Call W).


End Loop.

(** C6. When the inheritance-chain check of the role template fails with a
    not-found error, [reconcileBindings] logs a warning and returns nil: the
    cluster lookup, the check and the warning are all it does, so nothing is
    bound or granted.  Any other error of the check is returned as it is. *)
Theorem reconcileBindings_missing_role_template
    (binding : ClusterRoleTemplateBinding) {W} (h : handler Call W) (w : W)
    (cluster : Cluster) (err : error) :
  let getCluster := clusterLister_Get "" (ClusterName binding) in
  let checkRoles := mgr_checkReferencedRoles (RoleTemplateName binding) clusterContext 0 in
  let warn := logrus_Warnf ("ClusterRoleTemplateBinding " +:+ Name (crtbMeta binding)
                            +:+ " sets a non-existing role template "
                            +:+ RoleTemplateName binding +:+ ". Skipping.") in
  let a1 := h _ getCluster w in
  let a2 := h _ checkRoles a1.2 in
  let o := run h (reconcileBindings binding) w in
  ¬ (UserName binding = "" ∧ GroupPrincipalName binding = "" ∧ GroupName binding = "") →
  a1.1 = Ok (Some cluster) →
  a2.1 = Err err →
  if IsNotFound err
  then ret o = None ∧ log o = [Ev getCluster a1.1; Ev checkRoles a2.1; Ev warn ()]
  else ret o = Some err ∧ log o = [Ev getCluster a1.1; Ev checkRoles a2.1].
Proof.
  simpl. intros Hsubj H1 H2. unfold reconcileBindings.
  rewrite decide_False by done. simpl. rewrite H1. simpl. rewrite H2. simpl.
  destruct (IsNotFound err); simpl; [|done].
  split; [done|]. by destruct (h unit _ _).1.
Qed.


(** *** Label migration *)

Lemma joins_foldl (outs : list (option error)) (acc : option error) :
  (∀ a, acc = Some a → ∃ agg, foldl errors_Join acc outs = Some agg ∧ joins agg a)
  ∧ (∀ e, Some e ∈ outs → ∃ agg, foldl errors_Join acc outs = Some agg ∧ joins agg e).
Proof.
  revert acc. induction outs as [|out outs IH]; intros acc; simpl.
  { split.
    - intros a ->. exists a. split; [done|constructor].
    - intros e Hin. by apply elem_of_nil in Hin. }
  destruct (IH (errors_Join acc out)) as [IHacc IHin]. split.
  - intros a ->.
    destruct out as [x|]; simpl in *.
    + destruct (IHacc _ eq_refl) as (agg & Hagg & Hj). exists agg. split; [done|].
      clear -Hj. remember (joinError [a; x]) as j eqn:Hjx.
      induction Hj as [e|errs e' e Hin Hj' IHj]; subst.
      * eapply joins_in; [apply list_elem_of_here|constructor].
      * eapply joins_in; [done|]. by apply IHj.
    + destruct (IHacc _ eq_refl) as (agg & Hagg & Hj). exists agg. split; [done|].
      clear -Hj. remember (joinError [a]) as j eqn:Hjx.
      induction Hj as [e|errs e' e Hin Hj' IHj]; subst.
      * eapply joins_in; [apply list_elem_of_here|constructor].
      * eapply joins_in; [done|]. by apply IHj.
  - intros e Hin. apply elem_of_cons in Hin as [<-|Hin]; [|by apply IHin].
    assert (∃ j, errors_Join acc (Some e) = Some j ∧ joins j e) as (j & Hj & Hje).
    { destruct acc as [a|]; simpl; eexists; (split; [done|]).
      - eapply joins_in; [apply list_elem_of_further, list_elem_of_here|constructor].
      - eapply joins_in; [apply list_elem_of_here|constructor]. }
    destruct (IHacc _ Hj) as (agg & Hagg & Hjagg). exists agg. split; [done|].
    clear -Hje Hjagg. induction Hjagg as [x|errs e' x Hin Hj' IHj].
    + done.
    + eapply joins_in; [done|]. by apply IHj.
Qed.

Lemma joins_foldl_elem (outs : list (option error)) (e : error) :
  Some e ∈ outs → ∃ agg, foldl errors_Join None outs = Some agg ∧ joins agg e.
Proof. intros Hin. destruct (joins_foldl outs None) as [_ Hj]. by apply Hj. Qed.


Section Relabel.
Context {W : Type} (h : handler Call W).

Lemma relabelCRBs_run bindingKey crbs returnErr w :
  run h (relabelCRBs bindingKey crbs returnErr) w =
  let o := run_all h (relabelCRBPrograms bindingKey crbs) w in
  {| ret := foldl errors_Join returnErr (ret o); post := post o; log := log o |}.
Proof.
  revert returnErr w. induction crbs as [|crb crbs IH]; intros returnErr w; [done|].
  cbn [relabelCRBs relabelCRBPrograms fmap list_fmap run_all].
  rewrite run_bind. cbn zeta. rewrite IH. done.
Qed.

Lemma relabelRBs_run bindingKey rbs returnErr w :
  run h (relabelRBs bindingKey rbs returnErr) w =
  let o := run_all h (relabelRBPrograms bindingKey rbs) w in
  {| ret := foldl errors_Join returnErr (ret o); post := post o; log := log o |}.
Proof.
  revert returnErr w. induction rbs as [|rb rbs IH]; intros returnErr w; [done|].
  cbn [relabelRBs relabelRBPrograms fmap list_fmap run_all].
  rewrite run_bind. cbn zeta. rewrite IH. done.
Qed.

Lemma relabelCRBPrograms_attempted bindingKey crbs w crb :
  crb ∈ crbs →
  Name (crbMeta crb) ∈ omap crbGet (log (run_all h (relabelCRBPrograms bindingKey crbs) w)).
Proof.
  revert w. induction crbs as [|c crbs IH]; intros w Hin; [by apply elem_of_nil in Hin|].
  cbn [relabelCRBPrograms fmap list_fmap run_all log]. rewrite omap_app, elem_of_app.
  apply elem_of_cons in Hin as [->|Hin]; [left|right; by apply IH].
  simpl. apply list_elem_of_here.
Qed.

Lemma relabelRBPrograms_attempted bindingKey rbs w rb :
  rb ∈ rbs →
  (Namespace (rbMeta rb), Name (rbMeta rb))
    ∈ omap rbGet (log (run_all h (relabelRBPrograms bindingKey rbs) w)).
Proof.
  revert w. induction rbs as [|c rbs IH]; intros w Hin; [by apply elem_of_nil in Hin|].
  cbn [relabelRBPrograms fmap list_fmap run_all log]. rewrite omap_app, elem_of_app.
  apply elem_of_cons in Hin as [->|Hin]; [left|right; by apply IH].
  simpl. apply list_elem_of_here.
Qed.

End Relabel.

Lemma updateCRB_always (P : Event Call → Prop) bindingKey crb :
  (∀ n x, P (Ev (crbClient_Get n) x)) → (∀ c x, P (Ev (crbClient_Update c) x)) →
  always P (updateCRB bindingKey crb).
Proof.
  intros Hget Hupd. unfold updateCRB. simpl. intros r. split; [done|].
  destruct r as [c|err]; simpl; [|done]. intros r. split; [done|]. by destruct r.
Qed.

Lemma updateRB_always (P : Event Call → Prop) bindingKey rb :
  (∀ ns n x, P (Ev (rbClient_GetNamespaced ns n) x)) →
  (∀ c x, P (Ev (rbClient_Update c) x)) →
  always P (updateRB bindingKey rb).
Proof.
  intros Hget Hupd. unfold updateRB. simpl. intros r. split; [done|].
  destruct r as [c|err]; simpl; [|done]. intros r. split; [done|]. by destruct r.
Qed.

Lemma relabelPrograms_always (P : Event Call → Prop) bindingKey crbs rbs :
  (∀ n x, P (Ev (crbClient_Get n) x)) → (∀ c x, P (Ev (crbClient_Update c) x)) →
  (∀ ns n x, P (Ev (rbClient_GetNamespaced ns n) x)) →
  (∀ c x, P (Ev (rbClient_Update c) x)) →
  Forall (always P) (relabelCRBPrograms bindingKey crbs)
  ∧ Forall (always P) (relabelRBPrograms bindingKey rbs).
Proof.
  intros. split; apply Forall_fmap, Forall_forall; intros x _;
    unfold compose, RetryOnConflict; apply always_OnError;
    [by apply updateCRB_always|by apply updateRB_always].
Qed.

Lemma reconcileLabels_run (binding : ClusterRoleTemplateBinding)
    {W} (h : handler Call W) (w : W) requirements crbs rbs :
  let key := GetRTBLabel (crtbMeta binding) in
  let listCRBs := crbLister_List NamespaceAll (legacyCRBSelector binding requirements) in
  let listRBs := rbLister_List NamespaceAll (legacyRBSelector binding requirements) in
  let a1 := h _ listCRBs w in
  let o1 := run_all h (relabelCRBPrograms key crbs) a1.2 in
  let a2 := h _ listRBs (post o1) in
  let o2 := run_all h (relabelRBPrograms key rbs) a2.2 in
  index (Labels (crtbMeta binding)) RtbCrbRbLabelsUpdated ≠ "true" →
  getLabelRequirements (crtbMeta binding) = Ok requirements →
  a1.1 = Ok crbs →
  a2.1 = Ok rbs →
  run h (reconcileLabels binding) w =
  match foldl errors_Join None (ret o1 ++ ret o2) with
  | Some err =>
      {| ret := Some err; post := post o2;
         log := Ev listCRBs a1.1 :: log o1 ++ Ev listRBs a2.1 :: log o2 |}
  | None =>
      let o3 := run h (RetryOnConflict DefaultRetry (updateCRTB binding)) (post o2) in
      {| ret := ret o3; post := post o3;
         log := Ev listCRBs a1.1 :: log o1 ++ Ev listRBs a2.1 :: log o2 ++ log o3 |}
  end.
Proof.
  cbv zeta. intros Hlabel Hreq H1 H2. unfold reconcileLabels.
  rewrite decide_False by done. rewrite Hreq.
  rewrite run_checked, run_call. cbn [ret post log]. rewrite H1. cbv zeta.
  rewrite run_bind, relabelCRBs_run. cbn [ret post log].
  rewrite run_checked, run_call. cbn [ret post log]. rewrite H2. cbv zeta.
  rewrite run_bind, relabelRBs_run. cbn [ret post log].
  rewrite foldl_app.
  destruct (foldl errors_Join _ (ret (run_all h (relabelRBPrograms _ rbs) _))) as [err|].
  - cbn [run ret post log]. by rewrite app_nil_r.
  - cbn [ret post log]. done.
Qed.

(** C5. A binding that already carries the sentinel label makes
    [reconcileLabels] return nil at once: no call is issued and the world is
    left as it was.  The object that a run hands to the CRTB client's
    [Update] carries the sentinel, so a run on the marked binding is of this
    kind. *)
Theorem reconcileLabels_idempotent (binding : ClusterRoleTemplateBinding) :
  (index (Labels (crtbMeta binding)) RtbCrbRbLabelsUpdated = "true" →
   ∀ W (h : handler Call W) (w : W),
     run h (reconcileLabels binding) w = {| ret := None; post := w; log := [] |})
  ∧
  (∀ W (h : handler Call W) (w : W) ev marked,
     ev ∈ log (run h (reconcileLabels binding) w) →
     crtbUpdated ev = Some marked →
     ∀ W' (h' : handler Call W') (w' : W'),
       run h' (reconcileLabels marked) w' = {| ret := None; post := w'; log := [] |}).
Proof.
  assert (Hshort : ∀ b, index (Labels (crtbMeta b)) RtbCrbRbLabelsUpdated = "true" →
            ∀ W (h : handler Call W) (w : W),
              run h (reconcileLabels b) w = {| ret := None; post := w; log := [] |}).
  { intros b Hb W h w. unfold reconcileLabels. by rewrite decide_True. }
  split; [apply Hshort|].
  intros W h w ev marked Hin Hupd. apply Hshort. revert marked Hupd.
  set (P := λ ev, ∀ marked, crtbUpdated ev = Some marked →
                   index (Labels (crtbMeta marked)) RtbCrbRbLabelsUpdated = "true").
  change (P ev). revert ev Hin. apply Forall_forall, always_run.
  assert (Hloops : ∀ key crbs rbs,
             Forall (always P) (relabelCRBPrograms key crbs)
             ∧ Forall (always P) (relabelRBPrograms key rbs)).
  { intros. by apply relabelPrograms_always. }
  assert (HCRBs : ∀ key crbs acc, always P (relabelCRBs key crbs acc)).
  { intros key crbs. induction crbs as [|crb crbs IH]; intros acc; [done|].
    cbn [relabelCRBs]. apply always_bind; [|intros; apply IH].
    destruct (Hloops key [crb] []) as [Hc _]. by apply Forall_inv in Hc. }
  assert (HRBs : ∀ key rbs acc, always P (relabelRBs key rbs acc)).
  { intros key rbs. induction rbs as [|rb rbs IH]; intros acc; [done|].
    cbn [relabelRBs]. apply always_bind; [|intros; apply IH].
    destruct (Hloops key [] [rb]) as [_ Hc]. by apply Forall_inv in Hc. }
  unfold reconcileLabels. case_decide; [done|].
  destruct (getLabelRequirements _) as [requirements|err]; [|done].
  unfold checked. apply always_bind; [by intros x|].
  intros [crbs|err]; [|done].
  apply always_bind; [apply HCRBs|]. intros returnErr.
  apply always_bind; [by intros x|].
  intros [rbs|err]; [|done].
  apply always_bind; [apply HRBs|]. intros [err|]; [done|].
  apply always_OnError. unfold updateCRTB. simpl. intros r. split; [done|].
  destruct r as [c|err]; simpl; [|done]. intros r. split.
  - intros marked [= <-]. unfold index. simpl. by rewrite lookup_insert_eq.
  - by destruct r.
Qed.

(** C7, as the code has it.  In the label migration a failure on one
    binding does not stop the batch: the retried relabelling is run for
    every listed ClusterRoleBinding, each to an outcome of its own.  When
    the listing of the RoleBindings answers, it is run for every listed
    RoleBinding as well, and when some item has failed the result is the
    join of the outcomes in order, it holds every single error, and it is
    returned only after the last item has been run.  When that listing
    fails, its error is returned alone and at once: the outcomes of the
    ClusterRoleBindings are not part of the result and no RoleBinding is
    fetched. *)
Theorem reconcileLabels_aggregates_item_errors (binding : ClusterRoleTemplateBinding)
    {W} (h : handler Call W) (w : W) requirements crbs :
  let key := GetRTBLabel (crtbMeta binding) in
  let listCRBs := crbLister_List NamespaceAll (legacyCRBSelector binding requirements) in
  let listRBs := rbLister_List NamespaceAll (legacyRBSelector binding requirements) in
  let a1 := h _ listCRBs w in
  let o1 := run_all h (relabelCRBPrograms key crbs) a1.2 in
  let a2 := h _ listRBs (post o1) in
  let o := run h (reconcileLabels binding) w in
  index (Labels (crtbMeta binding)) RtbCrbRbLabelsUpdated ≠ "true" →
  getLabelRequirements (crtbMeta binding) = Ok requirements →
  a1.1 = Ok crbs →
  length (ret o1) = length crbs
  ∧ (∀ crb, crb ∈ crbs → Name (crbMeta crb) ∈ omap crbGet (log o))
  ∧ match a2.1 with
    | Ok rbs =>
        let o2 := run_all h (relabelRBPrograms key rbs) a2.2 in
        length (ret o2) = length rbs
        ∧ (∀ rb, rb ∈ rbs →
             (Namespace (rbMeta rb), Name (rbMeta rb)) ∈ omap rbGet (log o))
        ∧ (∀ e, Some e ∈ ret o1 ++ ret o2 →
             ∃ agg, ret o = Some agg
                    ∧ joins agg e
                    ∧ Some agg = foldl errors_Join None (ret o1 ++ ret o2)
                    ∧ log o = Ev listCRBs a1.1 :: log o1 ++ Ev listRBs a2.1 :: log o2)
    | Err err =>
        ret o = Some err
        ∧ log o = Ev listCRBs a1.1 :: log o1 ++ [Ev listRBs a2.1]
        ∧ omap rbGet (log o) = []
    end.
Proof.
  cbv zeta. intros Hlabel Hreq H1.
  split; [unfold relabelCRBPrograms; by rewrite run_all_length, length_fmap|].
  destruct (h _ (rbLister_List NamespaceAll (legacyRBSelector binding requirements))
              (post (run_all h (relabelCRBPrograms (GetRTBLabel (crtbMeta binding)) crbs)
                       (h _ (crbLister_List NamespaceAll
                               (legacyCRBSelector binding requirements)) w).2))).1
    as [rbs|err] eqn:H2.
  - pose proof (reconcileLabels_run binding h w requirements crbs rbs Hlabel Hreq H1 H2)
      as Hrun.
    cbv zeta in Hrun.
    assert (Hlog : ∃ tl,
      log (run h (reconcileLabels binding) w) =
      Ev (crbLister_List NamespaceAll (legacyCRBSelector binding requirements)) (Ok crbs)
      :: log (run_all h (relabelCRBPrograms (GetRTBLabel (crtbMeta binding)) crbs)
                (h _ (crbLister_List NamespaceAll (legacyCRBSelector binding requirements)) w).2)
      ++ Ev (rbLister_List NamespaceAll (legacyRBSelector binding requirements)) (Ok rbs)
      :: log (run_all h (relabelRBPrograms (GetRTBLabel (crtbMeta binding)) rbs)
                (h _ (rbLister_List NamespaceAll (legacyRBSelector binding requirements))
                   (post (run_all h (relabelCRBPrograms (GetRTBLabel (crtbMeta binding)) crbs)
                      (h _ (crbLister_List NamespaceAll
                              (legacyCRBSelector binding requirements)) w).2))).2)
      ++ tl).
    { rewrite Hrun, H1, H2. destruct (foldl _ _ _); cbn [log].
      - exists []. by rewrite app_nil_r.
      - by eexists. }
    destruct Hlog as [tl Hlog].
    split; [|split; [|split]].
    + intros crb Hin. rewrite Hlog. cbn [omap list_omap crbGet].
      rewrite omap_app, elem_of_app. left. by apply relabelCRBPrograms_attempted.
    + unfold relabelRBPrograms. by rewrite run_all_length, length_fmap.
    + intros rb Hin. rewrite Hlog. cbn [omap list_omap rbGet].
      rewrite omap_app, elem_of_app. right. cbn [omap list_omap rbGet].
      rewrite omap_app, elem_of_app. left. by apply relabelRBPrograms_attempted.
    + intros e Hin.
      destruct (joins_foldl_elem _ _ Hin) as (agg & Hagg & Hjoins).
      exists agg. rewrite Hrun, Hagg. cbn [ret log]. by rewrite H1, H2.
  - assert (Hrun : run h (reconcileLabels binding) w =
      {| ret := Some err;
         post := (h _ (rbLister_List NamespaceAll (legacyRBSelector binding requirements))
                    (post (run_all h (relabelCRBPrograms (GetRTBLabel (crtbMeta binding)) crbs)
                       (h _ (crbLister_List NamespaceAll
                               (legacyCRBSelector binding requirements)) w).2))).2;
         log :=
           Ev (crbLister_List NamespaceAll (legacyCRBSelector binding requirements)) (Ok crbs)
           :: log (run_all h (relabelCRBPrograms (GetRTBLabel (crtbMeta binding)) crbs)
                     (h _ (crbLister_List NamespaceAll
                             (legacyCRBSelector binding requirements)) w).2)
           ++ [Ev (rbLister_List NamespaceAll (legacyRBSelector binding requirements))
                 (Err err)] |}).
    { unfold reconcileLabels. rewrite decide_False by done. rewrite Hreq.
      rewrite run_checked, run_call. cbn [ret post log]. rewrite H1. cbv zeta.
      rewrite run_bind, relabelCRBs_run. cbn [ret post log].
      rewrite run_checked, run_call. cbn [ret post log]. rewrite H2. cbn [ret post log].
      done. }
    rewrite Hrun. cbn [ret log]. rewrite H1.
    split; [|split; [done|split; [done|]]].
    + intros crb Hin. cbn [omap list_omap crbGet].
      rewrite omap_app, elem_of_app. left. by apply relabelCRBPrograms_attempted.
    + cbn [omap list_omap rbGet]. rewrite omap_app. cbn [omap list_omap rbGet].
      rewrite app_nil_r.
      assert (Hquiet : Forall (λ ev, rbGet ev = None)
                (log (run_all h (relabelCRBPrograms (GetRTBLabel (crtbMeta binding)) crbs)
                        (h _ (crbLister_List NamespaceAll
                                (legacyCRBSelector binding requirements)) w).2))).
      { apply run_all_always. unfold relabelCRBPrograms. apply Forall_fmap, Forall_forall.
        intros crb _. unfold compose, RetryOnConflict.
        apply always_OnError. apply updateCRB_always; by intros. }
      clear Hrun H2. induction Hquiet as [|ev tr Hev _ IH]; [done|].
      simpl. rewrite Hev. exact IH.
Qed.


(** *** Clean-up on removal, against the object store *)

Section StoreFacts.
Variable reqMatches : Requirement → gmap string string → bool.







End StoreFacts.

End Facts.

(** *** The statements at work in the example world *)

#[local] Existing Instance exampleDeps.

(** One binding for each case of the subject contract. *)
Lemma reconcileSubject_contract_witness :
  let h := exampleHandler (Ok true) "" in
  let both := exampleBinding "alice" "local://alice" "" in
  let principalOnly := exampleBinding "" "github_user://12345" "" in
  let nameOnly := exampleBinding "alice" "" "" in
  let none := exampleBinding "" "" "" in
  reconcileSubject both = Ret (Some both, None)
  ∧ ret (run h (reconcileSubject principalOnly) ())
    = (Some (exampleBinding "u-ensured" "github_user://12345" ""), None)
  ∧ length (log (run h (reconcileSubject principalOnly) ())) = 1
  ∧ ret (run h (reconcileSubject nameOnly) ())
    = (Some (exampleBinding "alice" "local://alice" ""), None)
  ∧ reconcileSubject none
    = Ret (None, Some (errorString "ClusterRoleTemplateBinding crtb-1 has no subject")).
Proof.
  cbv zeta. split; [|split; [|split; [|split]]].
  - by apply (reconcileSubject_contract (H := exampleDeps)
                (exampleBinding "alice" "local://alice" "")); right; right.
  - destruct (reconcileSubject_contract (H := exampleDeps)
                (exampleBinding "" "github_user://12345" "")) as (_ & Hp & _).
    by destruct (Hp eq_refl eq_refl ltac:(done) eq_refl unit (exampleHandler (Ok true) "") ())
      as [_ Hret].
  - destruct (reconcileSubject_contract (H := exampleDeps)
                (exampleBinding "" "github_user://12345" "")) as (_ & Hp & _).
    destruct (Hp eq_refl eq_refl ltac:(done) eq_refl unit (exampleHandler (Ok true) "") ())
      as [Hlog _].
    by rewrite Hlog.
  - destruct (reconcileSubject_contract (H := exampleDeps)
                (exampleBinding "alice" "" "")) as (_ & _ & Hn & _).
    by destruct (Hn eq_refl eq_refl eq_refl ltac:(done) unit (exampleHandler (Ok true) "") ())
      as [_ Hret].
  - by apply (reconcileSubject_contract (H := exampleDeps) (exampleBinding "" "" "")).
Defined.

(** The role template is not found: a warning, and nil. *)
Lemma reconcileBindings_missing_role_template_witness :
  let h := exampleHandler (Err (StatusError StatusReasonNotFound "roletemplate not found")) "" in
  let o := run h (reconcileBindings (exampleBinding "alice" "local://alice" "")) () in
  ret o = None ∧ length (log o) = 3.
Proof.
  cbv zeta.
  destruct (reconcileBindings_missing_role_template (H := exampleDeps)
              (exampleBinding "alice" "local://alice" "")
              (exampleHandler (Err (StatusError StatusReasonNotFound "roletemplate not found")) "")
              () {| clusterMeta := exampleMeta "" "c-1" ∅ |}
              (StatusError StatusReasonNotFound "roletemplate not found"))
    as [Hret Hlog].
  - by intros [? _].
  - reflexivity.
  - reflexivity.
  - split; [exact Hret|]. by rewrite Hlog.
Defined.



(** A marked binding, and the binding that a full run marks. *)
Lemma reconcileLabels_idempotent_witness :
  let h := exampleHandler (Ok true) "" in
  let unmarked := exampleBinding "alice" "local://alice" "" in
  let marked := withCrtbLabels {[ RtbCrbRbLabelsUpdated := "true" ]} unmarked in
  run h (reconcileLabels marked) () = {| ret := None; post := (); log := [] |}
  ∧ ∃ updated,
      omap crtbUpdated (log (run h (reconcileLabels unmarked) ())) = [updated]
      ∧ run h (reconcileLabels updated) () = {| ret := None; post := (); log := [] |}.
Proof.
  cbv zeta. split.
  - by apply (reconcileLabels_idempotent
                (withCrtbLabels {[ RtbCrbRbLabelsUpdated := "true" ]}
                   (exampleBinding "alice" "local://alice" ""))).
  - eexists. split; [vm_compute; reflexivity|].
    destruct (reconcileLabels_idempotent (exampleBinding "alice" "local://alice" ""))
      as [_ Hmarked].
    eapply (Hmarked unit (exampleHandler (Ok true) "") ()).
    + do 9 apply list_elem_of_further. apply list_elem_of_here.
    + vm_compute. reflexivity.
Defined.

(** Fetching [crb-1] is refused: [crb-2] and [rb-1] are relabelled all the
    same, and the refusal comes back inside the joined error. *)
Lemma reconcileLabels_aggregates_item_errors_witness :
  let h := exampleHandler (Ok true) "crb-1" in
  let o := run h (reconcileLabels (exampleBinding "alice" "local://alice" "")) () in
  "crb-2" ∈ omap crbGet (log o)
  ∧ ("p-1", "rb-1") ∈ omap rbGet (log o)
  ∧ ∃ agg, ret o = Some agg ∧ joins agg refused.
Proof.
  cbv zeta.
  destruct (reconcileLabels_aggregates_item_errors
              (exampleBinding "alice" "local://alice" "")
              (exampleHandler (Ok true) "crb-1") () [] exampleCRBs)
    as (_ & Hcrbs & _ & Hrbs & Hagg).
  - by vm_compute.
  - reflexivity.
  - reflexivity.
  - split; [|split].
    + apply (Hcrbs {| crbMeta := exampleMeta "" "crb-2"
                                   {[ "uid-crtb-1" := MembershipBindingOwnerLegacy ]} |}).
      apply list_elem_of_further, list_elem_of_here.
    + apply (Hrbs {| rbMeta := exampleMeta "p-1" "rb-1"
                                 {[ "uid-crtb-1" := CrtbInProjectBindingOwner ]} |}).
      apply list_elem_of_here.
    + destruct (Hagg refused) as (agg & Hret & Hjoins & _).
      * vm_compute. apply list_elem_of_here.
      * by exists agg.
Defined.

(** The same refusal, and the listing of the RoleBindings fails: the
    relabelling of [crb-1] has failed, yet the result is the listing error,
    which does not hold the refusal, and no RoleBinding is fetched. *)
Lemma reconcileLabels_drops_item_errors_counterexample :
  let h := rbListingFails (exampleHandler (Ok true) "crb-1") in
  let binding := exampleBinding "alice" "local://alice" "" in
  let o := run h (reconcileLabels binding) () in
  Some refused ∈ ret (run_all h (relabelCRBPrograms (GetRTBLabel (crtbMeta binding))
                                   exampleCRBs) ())
  ∧ omap crbGet (log o) = ["crb-1"; "crb-2"]
  ∧ ret o = Some (errorString "listing failed")
  ∧ ¬ joins (errorString "listing failed") refused
  ∧ omap rbGet (log o) = [].
Proof.
  cbv zeta. split; [vm_compute; apply list_elem_of_here|].
  split; [vm_compute; reflexivity|]. split; [vm_compute; reflexivity|].
  split; [|vm_compute; reflexivity].
  intros Hj. inversion Hj.
Qed.



End AuthSpec.

(** ** The token store *)

Module TokensSpec.
Import Tokens.

Lemma secretFromToken_ignores_plaintext (token : RancherToken) (v : string) :
  secretFromToken (withPlaintextToken v token) = secretFromToken token.
Proof. done. Qed.

Lemma listTokens_no_plaintext authed userInfo secrets tokens :
  Forall (λ t, PlaintextToken (Status t) = "") tokens →
  Forall (λ t, PlaintextToken (Status t) = "") (listTokens authed userInfo secrets tokens).
Proof.
  revert tokens. induction secrets as [|secret secrets IH]; intros tokens Htokens; [done|].
  simpl. destruct (_ && _); apply IH; [done|].
  apply Forall_app. split; [done|]. by repeat constructor.
Qed.

(** C9. When the secret is found and the token is the caller's own, or the
    access review allows the caller, [Get] returns a nil token with a nil
    error. *)
Theorem Get_returns_nil {W} (h : handler Call W) (w : W)
    (userInfo : UserInfo) (name : string) (secret : Secret) :
  let a := h _ (secretCache_Get tokenNamespace name) w in
  a.1 = Ok secret →
  (UserID (Spec (tokenFromSecret secret)) = GetName userInfo
   ∨ ∃ sar, (h _ (sar_Create (fullPermissionsReview userInfo)) a.2).1 = Ok sar
            ∧ Allowed sar = true) →
  ret (run h (Get userInfo name) w) = (None, None).
Proof.
  simpl. intros Hget Hperm. unfold Get. simpl. rewrite Hget. simpl.
  unfold checkOtherUser. case_decide as Hother; simpl; [|done].
  destruct Hperm as [?|(sar & Hsar & Hallowed)]; [done|].
  rewrite Hsar. simpl. by rewrite Hallowed.
Qed.

#[local] Ltac allowed :=
  repeat match goal with
    | |- context [Allowed ?v] => destruct (Allowed v) eqn:?; simpl in *
    end.

#[local] Ltac crunch :=
  unfold Create, Update, Get, List, generateValue, checkOtherUser, userHasFullPermissions;
  simpl; repeat (progress (repeat (case_decide; simpl); answers; allowed)).

(** C4, as the code has it.  [Update] and [List] return tokens whose
    plaintext field is empty and [Get] returns no token; the secret built
    from a token does not depend on its plaintext field; the secret that
    [Update] writes carries the hash kept in the current secret; a [Create]
    given a token without plaintext value generates one value, hashes it
    once, writes the hash as [hashedToken] and returns the generated value in
    the plaintext field with the hash field cleared; a [Create] given a
    token that has a plaintext value neither generates nor hashes and writes
    the token's fields as they came.  The last three conjuncts start from
    the result: an [Update] that returns a token has read the current secret
    and written exactly one secret, with the hash kept there; a [Create]
    that returns a token has written exactly one secret, whose [hashedToken]
    is the hash of the one generated value it returns as plaintext when the
    token came without one, and the hash field of the token as given, with
    nothing generated or hashed, when the token came with one. *)
Theorem plaintext_only_from_Create :
  (∀ W (h : handler Call W) w userInfo token t' e,
     ret (run h (Update userInfo token) w) = (Some t', e) →
     PlaintextToken (Status t') = "")
  ∧ (∀ W (h : handler Call W) w userInfo name,
       (ret (run h (Get userInfo name) w)).1 = None)
  ∧ (∀ W (h : handler Call W) w userInfo ts e,
       ret (run h (List userInfo) w) = (Some ts, e) →
       Forall (λ t, PlaintextToken (Status t) = "") ts)
  ∧ (∀ token v, secretFromToken (withPlaintextToken v token) = secretFromToken token)
  ∧ (∀ W (h : handler Call W) w userInfo token ev s,
       let o := run h (Update userInfo token) w in
       ev ∈ log o →
       writtenSecret ev = Some s →
       ∃ current,
         omap cachedSecret (log o) = [current]
         ∧ s = secretFromToken
                 (withHashedToken (HashedToken (Status (tokenFromSecret current))) token))
  ∧ (∀ W (h : handler Call W) w userInfo token ev s,
       let o := run h (Create userInfo token) w in
       PlaintextToken (Status token) = "" →
       ev ∈ log o →
       writtenSecret ev = Some s →
       ∃ v hv,
         omap generated (log o) = [v]
         ∧ omap hashedValue (log o) = [(v, hv)]
         ∧ s = secretFromToken (withHashedToken hv token)
         ∧ ∀ t', (ret o).1 = Some t' →
                 PlaintextToken (Status t') = v ∧ HashedToken (Status t') = "")
  ∧ (∀ W (h : handler Call W) w userInfo token ev,
       PlaintextToken (Status token) ≠ "" →
       ev ∈ log (run h (Create userInfo token) w) →
       isGenerateOrHash ev = false
       ∧ ∀ s, writtenSecret ev = Some s → s = secretFromToken token)
  ∧ (∀ W (h : handler Call W) w userInfo token t' e,
       let o := run h (Update userInfo token) w in
       ret o = (Some t', e) →
       e = None
       ∧ ∃ current,
           omap cachedSecret (log o) = [current]
           ∧ omap writtenSecret (log o)
             = [secretFromToken
                  (withHashedToken (HashedToken (Status (tokenFromSecret current))) token)])
  ∧ (∀ W (h : handler Call W) w userInfo token t' e,
       let o := run h (Create userInfo token) w in
       PlaintextToken (Status token) = "" →
       ret o = (Some t', e) →
       e = None
       ∧ ∃ v hv,
           omap generated (log o) = [v]
           ∧ omap hashedValue (log o) = [(v, hv)]
           ∧ omap writtenSecret (log o) = [secretFromToken (withHashedToken hv token)]
           ∧ StringData (secretFromToken (withHashedToken hv token)) !! "hashedToken"
             = Some hv
           ∧ PlaintextToken (Status t') = v
           ∧ HashedToken (Status t') = "")
  ∧ (∀ W (h : handler Call W) w userInfo token t' e,
       let o := run h (Create userInfo token) w in
       PlaintextToken (Status token) ≠ "" →
       ret o = (Some t', e) →
       e = None
       ∧ omap generated (log o) = []
       ∧ omap hashedValue (log o) = []
       ∧ omap writtenSecret (log o) = [secretFromToken token]
       ∧ StringData (secretFromToken token) !! "hashedToken"
         = Some (HashedToken (Status token))
       ∧ PlaintextToken (Status t') = PlaintextToken (Status token)
       ∧ HashedToken (Status t') = "").
Proof.
  split; [|split; [|split; [|split; [|split; [|split; [|split; [|split; [|split]]]]]]]].
  - intros W h w userInfo token t' e. crunch; intros ?; by simplify_eq/=.
  - intros W h w userInfo name. by crunch.
  - intros W h w userInfo ts e. crunch; intros ?; simplify_eq/=.
    all: by apply listTokens_no_plaintext.
  - done.
  - intros W h w userInfo token ev s. crunch; intros Hin Hs; members Hin.
    all: injection Hs as <-; by eexists.
  - intros W h w userInfo token ev s. simpl. intros Hplain. crunch; intros Hin Hs; members Hin.
    all: injection Hs as <-; do 2 eexists.
    all: split; [done|]; split; [done|]; split; [done|].
    all: by intros t' [= <-].
  - intros W h w userInfo token ev Hplain. crunch; intros Hin; members Hin.
    all: split; [done|]; by intros s [= <-].
  - intros W h w userInfo token t' e. crunch; intros ?; simplify_eq/=.
    all: split; [done|]; by eexists.
  - intros W h w userInfo token t' e. simpl. intros Hplain.
    crunch; intros ?; simplify_eq/=.
    all: split; [done|]; do 2 eexists.
    all: repeat (split; [by simplify_map_eq|]); done.
  - intros W h w userInfo token t' e. simpl. intros Hplain.
    crunch; intros ?; simplify_eq/=.
    all: repeat (split; [by simplify_map_eq|]); done.
Qed.


(** In the example world: an update and a listing without plaintext, the
    stored hash kept by an update, the hash of the generated value written
    by a creation that returns the generated value, and a creation that
    hashes nothing and writes the given hash field. *)
Lemma plaintext_only_from_Create_witness :
  (∃ t', ret (run exampleHandler (Update exampleUser (exampleToken "given" "")) ())
         = (Some t', None)
         ∧ PlaintextToken (Status t') = "")
  ∧ (∃ ts, ret (run exampleHandler (List exampleUser) ()) = (Some ts, None)
           ∧ Forall (λ t, PlaintextToken (Status t) = "") ts)
  ∧ (∃ s, omap writtenSecret
            (log (run exampleHandler (Update exampleUser (exampleToken "given" "")) ()))
          = [s]
          ∧ StringData s !! "hashedToken" = Some "$1:stored")
  ∧ (∃ s t', omap writtenSecret
               (log (run exampleHandler (Create exampleUser (exampleToken "" "")) ()))
             = [s]
             ∧ StringData s !! "hashedToken" = Some "$1:generated-value"
             ∧ ret (run exampleHandler (Create exampleUser (exampleToken "" "")) ())
               = (Some t', None)
             ∧ PlaintextToken (Status t') = "generated-value")
  ∧ (∀ ev, ev ∈ log (run exampleHandler (Create exampleUser (exampleToken "given" "h")) ())
           → isGenerateOrHash ev = false)
  ∧ omap writtenSecret
      (log (run exampleHandler (Create exampleUser (exampleToken "given" "h")) ()))
    = [secretFromToken (exampleToken "given" "h")].
Proof.
  destruct plaintext_only_from_Create
    as (HU & _ & HL & _ & HUw & HC & HCg & HUr & HCr & HCgr).
  split; [|split; [|split; [|split; [|split]]]].
  - eexists. split; [vm_compute; reflexivity|].
    eapply (HU unit exampleHandler () exampleUser (exampleToken "given" "")).
    vm_compute. reflexivity.
  - eexists. split; [vm_compute; reflexivity|].
    eapply (HL unit exampleHandler () exampleUser). vm_compute. reflexivity.
  - edestruct (HUr unit exampleHandler () exampleUser (exampleToken "given" ""))
      as (_ & current & Hcur & Hs); [vm_compute; reflexivity|].
    eexists. split; [exact Hs|].
    injection Hcur as <-. vm_compute. reflexivity.
  - edestruct (HCr unit exampleHandler () exampleUser (exampleToken "" ""))
      as (_ & v & hv & Hv & Hhv & Hs & Hhash & Hplain & _);
      [reflexivity|vm_compute; reflexivity|].
    injection Hv as <-. injection Hhv as <-.
    do 2 eexists. split; [exact Hs|]. split; [exact Hhash|].
    split; [vm_compute; reflexivity|exact Hplain].
  - intros ev Hin.
    by destruct (HCg unit exampleHandler () exampleUser (exampleToken "given" "h") ev).
  - edestruct (HCgr unit exampleHandler () exampleUser (exampleToken "given" "h"))
      as (_ & _ & _ & Hs & _); [discriminate|vm_compute; reflexivity|].
    exact Hs.
Defined.

(** C4, where it fails as stated.  [Create] is handed a token that already
    carries a plaintext value, and the same text in its hash field: no hash
    is computed, the secret written holds the plaintext value under
    [hashedToken], and the call succeeds. *)
Lemma Create_persists_given_value_counterexample :
  let token := exampleToken "hunter2" "hunter2" in
  let o := run exampleHandler (Create exampleUser token) () in
  ret o = (Some (exampleToken "hunter2" ""), None)
  ∧ omap hashedValue (log o) = []
  ∧ ∃ s, omap writtenSecret (log o) = [s]
         ∧ StringData s !! "hashedToken" = Some (PlaintextToken (Status token)).
Proof.
  split; [vm_compute; reflexivity|]. split; [vm_compute; reflexivity|].
  eexists. split; vm_compute; reflexivity.
Qed.

(** In the example world the caller fetches a token of their own. *)
Lemma Get_returns_nil_witness :
  ret (run exampleHandler (Get exampleUser "token-1") ()) = (None, None).
Proof.
  apply (Get_returns_nil exampleHandler () exampleUser "token-1" exampleSecret).
  - reflexivity.
  - left. vm_compute. reflexivity.
Defined.

End TokensSpec.

(** ** The user-activity store *)

Module UserActivitySpec.
Import UserActivity.

Section Facts.
Context `{Deps} {W : Type} (h : handler Call W).

Lemma int64_id (z : Z) : (- 2 ^ 63 ≤ z < 2 ^ 63)%Z → int64 z = z.
Proof. intros Hz. unfold int64. rewrite Z.mod_small; lia. Qed.

(** A mismatch of the name or of the token is an error, and nothing is
    asked of the token controller. *)
Lemma create_mismatch userActivity token user lastActivity minutes expectedName (w : W) :
  setUserActivityName user (tokenName token) = Ok expectedName →
  Name userActivity ≠ expectedName ∨ tokenName token ≠ TokenId userActivity →
  ∃ err,
    run h (create userActivity token user lastActivity minutes) w
    = {| ret := (None, Some err); post := w; log := [] |}.
Proof.
  intros Hname Hmis. unfold create. rewrite Hname.
  case_decide; [by eexists|]. case_decide; [by eexists|]. by destruct Hmis.
Qed.

(** X20. While the minutes, taken in nanoseconds, fit [time.Duration], a valid
    request moves the idle timeout of the token to the last activity plus
    that many minutes and reports the same instant. *)
Lemma create_in_range userActivity token user lastActivity minutes (w : W) :
  let newIdleTimeout := Time_UTC (Time_Add lastActivity (minutes * Minute)) in
  let update := tokenController_Update (withLastIdleTimeout newIdleTimeout token) in
  let o := run h (create userActivity token user lastActivity minutes) w in
  setUserActivityName user (tokenName token) = Ok (Name userActivity) →
  tokenName token = TokenId userActivity →
  (- 2 ^ 63 ≤ minutes * Minute < 2 ^ 63)%Z →
  log o = [Ev update (h _ update w).1]
  ∧ match (h _ update w).1 with
    | Ok _ =>
        ret o = (Some (withStatus {| CurrentTimeout := Time_String newIdleTimeout;
                                     LastActivity := Time_String lastActivity |}
                                  userActivity), None)
    | Err err => ret o = (None, Some (Errorf_v "failed to update token: " err))
    end.
Proof.
  cbv zeta. intros Hname Htoken Hrange. unfold create. rewrite Hname.
  rewrite decide_False by (intros Hn; by apply Hn).
  rewrite decide_False by (intros Hn; by apply Hn).
  assert (Hd : Duration_mul Minute (int64 minutes) = (minutes * Minute)%Z).
  { unfold Duration_mul, Minute in *. rewrite (int64_id minutes) by lia.
    rewrite int64_id; lia. }
  rewrite Hd. simpl. by destruct (h _ _ w).1.
Qed.

End Facts.

(** C8, where the code falls short of it.  With 153722868 minutes the
    product with [time.Minute] leaves the range of [time.Duration] and wraps
    around: the request is accepted, and the idle timeout written to the
    token and reported lies before the last activity instead of 153722868
    minutes after it. *)
Theorem create_idle_timeout_wraps :
  let minutes := 153722868%Z in
  let o := run exampleHandler
             (create (H := exampleDeps) exampleActivity exampleToken "user-1"
                     exampleNow minutes) () in
  let written := {| nsec := nsec exampleNow - 9223371993709551616; loc := UTCLoc |} in
  omap updatedToken (log o) = [withLastIdleTimeout written exampleToken]
  ∧ ret o = (Some (withStatus
                     {| CurrentTimeout := Time_String (Deps := exampleDeps) written;
                        LastActivity := Time_String (Deps := exampleDeps) exampleNow |}
                     exampleActivity), None)
  ∧ (nsec written < nsec exampleNow)%Z
  ∧ nsec written ≠ (nsec exampleNow + minutes * Minute)%Z.
Proof.
  split; [vm_compute; reflexivity|]. split; [vm_compute; reflexivity|].
  split; vm_compute; [reflexivity|discriminate].
Qed.

(** One minute less is still in range. *)
Lemma create_in_range_witness :
  let minutes := 153722867%Z in
  let o := run exampleHandler
             (create (H := exampleDeps) exampleActivity exampleToken "user-1"
                     exampleNow minutes) () in
  omap updatedToken (log o)
  = [withLastIdleTimeout
       {| nsec := nsec exampleNow + minutes * Minute; loc := UTCLoc |} exampleToken].
Proof.
  cbv zeta.
  destruct (create_in_range (H := exampleDeps) exampleHandler exampleActivity exampleToken
              "user-1" exampleNow 153722867 ()) as [Hlog _].
  - reflexivity.
  - reflexivity.
  - unfold Minute. lia.
  - rewrite Hlog. reflexivity.
Defined.

End UserActivitySpec.

(** ** Traces in general *)

Section TraceFacts.
Context {E : Type → Type}.

Lemma finalFailure_nil (f : Event E → option error) r : finalFailure f [] r.
Proof. intros pre ev post e Heq. by destruct pre. Qed.

Lemma finalFailure_cons (f : Event E → option error) ev tr r :
  f ev = None → finalFailure f tr r → finalFailure f (ev :: tr) r.
Proof.
  intros Hev Htr [|ev' pre] ev0 post e Heq Hf; simpl in Heq.
  - injection Heq as -> ->. rewrite Hev in Hf. discriminate Hf.
  - injection Heq as -> ->. by eapply Htr.
Qed.

Lemma finalFailure_last (f : Event E → option error) ev e :
  f ev = Some e → finalFailure f [ev] (Some e).
Proof.
  intros Hev [|ev' pre] ev0 post e0 Heq Hf; simpl in Heq.
  - injection Heq as <- <-. split; [done|congruence].
  - injection Heq as _ Heq. by destruct pre.
Qed.

Lemma finalFailure_app (f : Event E → option error) tr1 tr2 r :
  Forall (λ ev, f ev = None) tr1 → finalFailure f tr2 r → finalFailure f (tr1 ++ tr2) r.
Proof.
  induction 1 as [|ev tr1 Hev _ IH]; intros Htr2; simpl; [done|].
  apply finalFailure_cons; [done|]. by apply IH.
Qed.

Lemma finalFailure_app_l (f : Event E → option error) tr1 tr2 r :
  finalFailure f tr1 None → finalFailure f tr2 r → finalFailure f (tr1 ++ tr2) r.
Proof.
  intros H1 H2. apply finalFailure_app; [|done].
  apply Forall_forall. intros ev Hin. destruct (f ev) as [e|] eqn:Hf; [|done].
  apply list_elem_of_split in Hin as (l1 & l2 & ->).
  by destruct (H1 l1 ev l2 e eq_refl Hf) as [_ ?].
Qed.

Lemma chained_app (P : option (Event E) → Event E → Prop) first tr1 tr2 :
  chained P first tr1 → (∀ prev, chained P prev tr2) → chained P first (tr1 ++ tr2).
Proof.
  revert first. induction tr1 as [|ev tr1 IH]; intros first H1 H2; simpl; [apply H2|].
  destruct H1 as [Hev H1]. split; [done|]. by apply IH.
Qed.

Lemma chained_split (P : option (Event E) → Event E → Prop) first tr pre ev post :
  chained P first tr → tr = pre ++ ev :: post → P (default first (Some <$> last pre)) ev.
Proof.
  revert first tr. induction pre as [|ev' pre IH]; intros first tr Htr ->; simpl in *.
  - apply Htr.
  - destruct Htr as [_ Htr]. specialize (IH (Some ev') _ Htr eq_refl).
    rewrite last_cons. by destruct (last pre).
Qed.

Lemma alwaysAfter_bind {A B} (P : option (Event E) → Event E → Prop) first
    (p : Prog E A) (f : A → Prog E B) :
  alwaysAfter P first p → (∀ a prev, alwaysAfter P prev (f a)) →
  alwaysAfter P first (bind p f).
Proof.
  intros Hp Hf. revert first Hp. induction p as [a|X c k IH]; intros first Hp; simpl in *.
  - apply Hf.
  - intros x. destruct (Hp x) as [Hc Hk]. split; [done|]. by apply IH.
Qed.

Lemma alwaysAfter_run {W R} (h : handler E W) (P : option (Event E) → Event E → Prop)
    first (p : Prog E R) (w : W) :
  alwaysAfter P first p → chained P first (log (run h p w)).
Proof.
  revert first w. induction p as [a|X c k IH]; intros first w Hp; simpl; [done|].
  destruct (Hp (h X c w).1) as [Hc Hk]. split; [done|]. by apply IH.
Qed.

Lemma alwaysAfter_OnError (P : option (Event E) → Event E → Prop) steps retriable
    (fn : Prog E (option error)) lastErr first :
  (∀ prev, alwaysAfter P prev fn) → alwaysAfter P first (OnError steps retriable fn lastErr).
Proof.
  intros Hfn. revert lastErr first. induction steps as [|n IH]; intros lastErr first; simpl;
    [done|].
  apply alwaysAfter_bind; [apply Hfn|]. intros [err|] prev; simpl; [|done].
  destruct (retriable err); simpl; [apply IH|done].
Qed.

Lemma always_weaken {R} (P Q : Event E → Prop) (p : Prog E R) :
  (∀ ev, P ev → Q ev) → always P p → always Q p.
Proof.
  intros HPQ. induction p as [a|X c k IH]; simpl; [done|].
  intros Hp x. destruct (Hp x) as [Hc Hk]. split; [by apply HPQ|]. by apply IH.
Qed.

End TraceFacts.

(** ** The CRTB lifecycle, continued *)

Module AuthMore.
Import Auth.

Section Facts.
Context `{Deps}.

#[local] Ltac walk :=
  repeat first
    [ progress simpl
    | match goal with
      | |- ∀ _, _ => intros ?
      | |- _ ∧ _ => split
      | |- always _ (match ?x with _ => _ end) => destruct x
      | |- always _ (if ?x then _ else _) => destruct x
      end
    | done ].

Lemma reconcileSubject_always (P : Event Call → Prop) binding :
  (∀ p d x, P (Ev (userMGR_EnsureUser p d) x)) →
  (∀ ns n x, P (Ev (userLister_Get ns n) x)) →
  always P (reconcileSubject binding).
Proof. intros. unfold reconcileSubject. repeat case_decide; walk. Qed.

Lemma grantInProjects_always (P : Event Call → Prop) binding subject projects :
  (∀ m x, P (Ev (logrus_Warnf m) x)) →
  (∀ rt p res s b x,
     P (Ev (mgr_grantManagementClusterScopedPrivilegesInProjectNamespace rt p res s b) x)) →
  always P (grantInProjects binding subject projects).
Proof.
  intros. induction projects as [|p projects IH]; simpl; [done|].
  destruct (DeletionTimestamp (projectMeta p)); unfold check; walk.
Qed.

Lemma reconcileBindings_always (P : Event Call → Prop) binding :
  (∀ ev, phase ev = 2 → P ev) → always P (reconcileBindings binding).
Proof.
  intros HP. unfold reconcileBindings. case_decide; [done|].
  simpl. intros r. split; [by apply HP|]. destruct r as [[cluster|]|err]; [|done|done].
  simpl. intros r. split; [by apply HP|]. destruct r as [isOwnerRole|err].
  2: { destruct (IsNotFound err); [|done]. simpl. intros []. split; [by apply HP|done]. }
  destruct (BuildSubjectFromRTB binding) as [subject|err]; [|done].
  unfold check, checked. simpl. intros r. split; [by apply HP|]. destruct r; [done|].
  simpl. intros r. split; [by apply HP|]. destruct r; [done|].
  simpl. intros r. split; [by apply HP|]. destruct r as [projects|]; [|done].
  simpl. apply grantInProjects_always; intros; by apply HP.
Qed.

Lemma relabel_always (P : Event Call → Prop) key :
  (∀ ev, phase ev = 1 → P ev) →
  (∀ crbs acc, always P (relabelCRBs key crbs acc))
  ∧ (∀ rbs acc, always P (relabelRBs key rbs acc)).
Proof.
  intros HP. split.
  - intros crbs. induction crbs as [|crb crbs IH]; intros acc; [done|].
    cbn [relabelCRBs]. apply always_bind; [|intros; apply IH].
    apply always_OnError, AuthSpec.updateCRB_always; intros; by apply HP.
  - intros rbs. induction rbs as [|rb rbs IH]; intros acc; [done|].
    cbn [relabelRBs]. apply always_bind; [|intros; apply IH].
    apply always_OnError, AuthSpec.updateRB_always; intros; by apply HP.
Qed.

Lemma updateCRTB_always (P : Event Call → Prop) binding :
  (∀ ev, phase ev = 1 → P ev) → always P (updateCRTB binding).
Proof.
  intros HP. unfold updateCRTB. simpl. intros r. split; [by apply HP|].
  destruct r as [c|err]; simpl; [|done]. intros r. split; [by apply HP|]. by destruct r.
Qed.

Lemma reconcileLabels_always (P : Event Call → Prop) binding :
  (∀ ev, phase ev = 1 → P ev) → always P (reconcileLabels binding).
Proof.
  intros HP. destruct (relabel_always P (GetRTBLabel (crtbMeta binding)) HP) as [HC HR].
  unfold reconcileLabels. case_decide; [done|].
  destruct (getLabelRequirements _) as [requirements|err]; [|done].
  unfold checked. apply always_bind; [intros x; split; [by apply HP|done]|].
  intros [crbs|err]; [|done].
  apply always_bind; [apply HC|]. intros returnErr.
  apply always_bind; [intros x; split; [by apply HP|done]|].
  intros [rbs|err]; [|done].
  apply always_bind; [apply HR|]. intros [err|]; [done|].
  by apply always_OnError, updateCRTB_always.
Qed.

(** X1. [Create] resolves the subject and then synthesises the bindings: its
    calls are calls on the user manager or user lister followed by calls of
    the synthesis, and none on the binding listers and clients that the
    label migration uses.  A nil object comes back only with an error and
    before any call of the synthesis. *)
Theorem Create_stages (obj : ClusterRoleTemplateBinding) {W} (h : handler Call W) (w : W) :
  let o := run h (Create obj) w in
  ∃ resolve synth,
    log o = resolve ++ synth
    ∧ Forall (λ ev, phase ev = 0) resolve
    ∧ Forall (λ ev, phase ev = 2) synth
    ∧ ((ret o).1 = None → synth = [] ∧ is_Some (ret o).2).
Proof.
  cbv zeta. unfold Create. rewrite run_bind. cbv zeta.
  pose proof (always_run h _ _ w
                (reconcileSubject_always (λ ev, phase ev = 0) obj
                   ltac:(done) ltac:(done))) as Hsubj.
  pose proof (AuthSpec.reconcileSubject_binding_or_error obj h w) as Hnn.
  destruct (run h (reconcileSubject obj) w) as [[[obj'|] [err|]] w1 tr1]; simpl in *;
    try done.
  - exists tr1, []. by rewrite app_nil_r.
  - rewrite run_bind. simpl.
    exists tr1, (log (run h (reconcileBindings obj') w1) ++ []). split; [done|].
    split; [done|]. split; [|done].
    rewrite app_nil_r. apply always_run, reconcileBindings_always. done.
  - exists tr1, []. by rewrite app_nil_r.
Qed.

(** X2. [Updated] runs its three stages in order: subject resolution, then
    label migration, then synthesis; a call of a later stage is never
    followed by one of an earlier stage.  When the object returned is nil
    there is an error and the synthesis has not started; when there is no
    error the object is returned. *)
Theorem Updated_stages (obj : ClusterRoleTemplateBinding) {W} (h : handler Call W) (w : W) :
  let o := run h (Updated obj) w in
  ∃ resolve migrate synth,
    log o = resolve ++ migrate ++ synth
    ∧ Forall (λ ev, phase ev = 0) resolve
    ∧ Forall (λ ev, phase ev = 1) migrate
    ∧ Forall (λ ev, phase ev = 2) synth
    ∧ ((ret o).1 = None → synth = [] ∧ is_Some (ret o).2)
    ∧ ((ret o).2 = None → is_Some (ret o).1).
Proof.
  cbv zeta. unfold Updated. rewrite run_bind. cbv zeta.
  pose proof (always_run h _ _ w
                (reconcileSubject_always (λ ev, phase ev = 0) obj
                   ltac:(done) ltac:(done))) as Hsubj.
  pose proof (AuthSpec.reconcileSubject_binding_or_error obj h w) as Hnn.
  destruct (run h (reconcileSubject obj) w) as [[[obj'|] [err|]] w1 tr1]; simpl in *;
    try done.
  - exists tr1, [], []. by rewrite !app_nil_r.
  - rewrite run_bind. cbv zeta.
    pose proof (always_run h _ _ w1
                  (reconcileLabels_always (λ ev, phase ev = 1) obj' ltac:(done))) as Hlab.
    destruct (run h (reconcileLabels obj') w1) as [[err|] w2 tr2]; simpl in *.
    + exists tr1, tr2, []. by rewrite !app_nil_r.
    + rewrite run_bind. simpl.
      exists tr1, tr2, (log (run h (reconcileBindings obj') w2) ++ []).
      split; [done|]. split; [done|]. split; [done|]. split; [|done].
      rewrite app_nil_r. apply always_run, reconcileBindings_always. done.
  - exists tr1, [], []. by rewrite !app_nil_r.
Qed.

(** *** Removal *)

#[local] Ltac refold :=
  repeat match goal with
    | |- context [list_bind _ _ ?f ?l] => change (list_bind _ _ f l) with (l ≫= f)
    | |- context [list_omap _ _ ?f ?l] => change (list_omap _ _ f l) with (omap f l)
    end.

Section Removal.
Context {W : Type} (h : handler Call W).

Lemma deleteRoleBindings_trace binding p rbs w :
  let o := run h (deleteRoleBindings binding p rbs) w in
  finalFailure removeFailure (log o) (ret o)
  ∧ omap deletedRoleBinding (log o)
    `prefix_of` ((λ rb, (Name (projectMeta p), Name (rbMeta rb))) <$> rbs)
  ∧ (ret o = None →
     omap deletedRoleBinding (log o)
     = (λ rb, (Name (projectMeta p), Name (rbMeta rb))) <$> rbs)
  ∧ log o ≫= listedRoleBindings = []
  ∧ Forall (λ ev, rbSelector ev = None ∧ isGrantOrUpdate ev = false) (log o).
Proof.
  cbv zeta. revert w. induction rbs as [|rb rbs IH]; intros w; simpl.
  { split; [apply finalFailure_nil|]. by repeat split. }
  unfold check. simpl. answer. answer. destruct r0 as [err|]; simpl.
  - split; [by apply finalFailure_cons, finalFailure_last|].
    split; [apply prefix_cons, prefix_nil|]. by repeat constructor.
  - destruct (IH w1) as (Hfin & Hpre & Hall & Hlist & Hsel).
    split; [by repeat apply finalFailure_cons|]. split; [by apply prefix_cons|].
    split; [intros Hret; f_equal; by apply Hall|]. split; [done|].
    by repeat constructor.
Qed.

Lemma removeInProjects_trace binding projects w :
  let o := run h (removeInProjects binding (GetRTBLabel (crtbMeta binding)) projects) w in
  finalFailure removeFailure (log o) (ret o)
  ∧ omap deletedRoleBinding (log o) `prefix_of` (log o ≫= listedRoleBindings)
  ∧ (ret o = None → omap deletedRoleBinding (log o) = log o ≫= listedRoleBindings)
  ∧ Forall (λ ev, cleanupSelector binding ev ∧ isGrantOrUpdate ev = false) (log o).
Proof.
  cbv zeta. revert w. induction projects as [|p projects IH]; intros w.
  { simpl. split; [apply finalFailure_nil|]. by repeat split. }
  cbn [removeInProjects]. rewrite run_checked, run_call. cbn [ret post log].
  destruct (h _ _ w) as [[rbs|err] w1]; cbn [fst snd].
  2: { split; [by apply finalFailure_last|]. split; [done|]. split; [done|].
       repeat constructor. by intros sel [= <-]. }
  cbv zeta. rewrite run_check. cbv zeta.
  destruct (deleteRoleBindings_trace binding p rbs w1) as (Hfin & Hpre & Hall & Hlist & Hsel).
  destruct (run h (deleteRoleBindings binding p rbs) w1) as [r w2 tr]; simpl in *.
  assert (Hsel' : Forall (λ ev, cleanupSelector binding ev ∧ isGrantOrUpdate ev = false) tr).
  { eapply Forall_impl; [exact Hsel|]. intros ev [Hs ?]. split; [|done].
    intros sel Hsel0. congruence. }
  destruct r as [err|]; simpl; refold.
  - split; [by apply finalFailure_cons|].
    rewrite Hlist, app_nil_r. split; [done|]. split; [done|].
    constructor; [|done]. split; [by intros sel [= <-]|done].
  - destruct (IH w2) as (Hfin' & Hpre' & Hall' & Hsel'').
    rewrite omap_app, bind_app, Hlist. simpl. refold. rewrite (Hall eq_refl).
    split; [by apply finalFailure_cons, finalFailure_app_l|].
    split; [by apply prefix_app|]. split; [intros Hret; f_equal; by apply Hall'|].
    constructor; [split; [by intros sel [= <-]|done]|]. by apply Forall_app.
Qed.

Lemma cleanup_trace binding w :
  let o := run h (removeMGMTClusterScopedPrivilegesInProjectNamespace binding) w in
  finalFailure removeFailure (log o) (ret o)
  ∧ Forall (λ ev, isGrantOrUpdate ev = false) (log o).
Proof.
  cbv zeta. unfold removeMGMTClusterScopedPrivilegesInProjectNamespace.
  rewrite run_checked, run_call. cbn [ret post log].
  destruct (h _ _ w) as [[projects|err] w1]; cbn [fst snd].
  2: { split; [by apply finalFailure_last|]. by repeat constructor. }
  cbv zeta. destruct (removeInProjects_trace binding projects w1) as (Hfin & _ & _ & Hsel).
  cbn [ret post log]. split; [by apply finalFailure_cons|].
  constructor; [done|]. eapply Forall_impl; [exact Hsel|]. by intros ev [_ ?].
Qed.

End Removal.

(** X3. Whatever the listers and the client answer, the per-project clean-up
    asks for the deletion of the RoleBindings that the listings returned, in
    that order and each in the namespace that was listed; it stops at the
    first failure, so the deletions are a prefix of what was listed, and all
    of it when the clean-up returns nil.  Every listing selects on the
    binding's own key with the value [crtb-in-project-binding-owner]. *)
Theorem cleanup_deletes_what_is_listed (binding : ClusterRoleTemplateBinding)
    {W} (h : handler Call W) (w : W) :
  let o := run h (removeMGMTClusterScopedPrivilegesInProjectNamespace binding) w in
  let listed := log o ≫= listedRoleBindings in
  let deleted := omap deletedRoleBinding (log o) in
  deleted `prefix_of` listed
  ∧ (ret o = None → deleted = listed)
  ∧ (∀ ev sel, ev ∈ log o → rbSelector ev = Some sel →
       sel = AsSelector {[ GetRTBLabel (crtbMeta binding) := CrtbInProjectBindingOwner ]}).
Proof.
  cbv zeta. unfold removeMGMTClusterScopedPrivilegesInProjectNamespace.
  rewrite run_checked, run_call. cbn [ret post log].
  destruct (h _ _ w) as [[projects|err] w1]; cbn [fst snd].
  2: { simpl. split; [done|]. split; [done|]. intros ev sel Hin.
       apply list_elem_of_singleton in Hin as ->. done. }
  cbv zeta. destruct (removeInProjects_trace h binding projects w1) as (_ & Hpre & Hall & Hsel).
  simpl. split; [done|]. split; [done|].
  intros ev sel Hin Hs. apply elem_of_cons in Hin as [->|Hin]; [done|].
  rewrite Forall_forall in Hsel. by apply (Hsel ev Hin).
Qed.

(** X4. [Remove] always returns a nil object.  Its first call deletes the
    membership binding for the binding's key; a step that fails (that
    deletion, a listing, the deletion of a RoleBinding, the removal of the
    provisioning permissions) is the last call made and its error is the
    result; success is returned only after [removeAuthV2Permissions] has
    answered nil; and no call of [Remove] grants or updates anything. *)
Theorem Remove_fails_fast (obj : ClusterRoleTemplateBinding)
    {W} (h : handler Call W) (w : W) :
  let o := run h (Remove obj) w in
  let first := mgr_reconcileClusterMembershipBindingForDelete "" (GetRTBLabel (crtbMeta obj)) in
  (ret o).1 = None
  ∧ (∃ tl, log o = Ev first (h _ first w).1 :: tl)
  ∧ (∀ pre ev post e,
       log o = pre ++ ev :: post → removeFailure ev = Some e →
       post = [] ∧ (ret o).2 = Some e)
  ∧ ((ret o).2 = None →
     ∃ pre, log o = pre ++ [Ev (mgr_removeAuthV2Permissions CRTBRoleBindingID obj) None])
  ∧ Forall (λ ev, isGrantOrUpdate ev = false) (log o).
Proof.
  cbv zeta. unfold Remove. rewrite run_bind, run_call. cbn [ret post log].
  destruct (h _ _ w) as [[err|] w1]; cbn [fst snd].
  { simpl. split; [done|]. split; [by eexists|]. split; [by apply finalFailure_last|].
    split; [done|]. by repeat constructor. }
  rewrite run_bind. cbv zeta.
  destruct (cleanup_trace h obj w1) as [Hfin Hquiet].
  destruct (run h (removeMGMTClusterScopedPrivilegesInProjectNamespace obj) w1)
    as [r w2 tr]; cbn [ret post log] in *.
  destruct r as [err|].
  - simpl. split; [done|]. split; [by eexists|]. rewrite app_nil_r.
    split; [by apply finalFailure_cons|]. split; [done|]. by constructor.
  - rewrite run_bind, run_call. simpl. destruct (h _ _ w2) as [r w3]; simpl.
    split; [done|]. split; [by eexists|]. split.
    + apply finalFailure_cons; [done|]. apply finalFailure_app_l; [done|].
      destruct r as [err|]; [by apply finalFailure_last|].
      apply finalFailure_cons; [done|apply finalFailure_nil].
    + split.
      * intros ->. by eexists (_ :: tr).
      * constructor; [done|]. apply Forall_app. split; [done|]. by repeat constructor.
Qed.

(** *** Synthesis *)

(** X5. Whenever [reconcileBindings] ensures the cluster membership binding,
    the role it names is the lower-cased [<cluster>-clusterowner] or
    [<cluster>-clustermember] according to the owner flag it passes, that
    flag is what the role check answered, and the binding is tagged with the
    key of the CRTB. *)
Theorem membership_role_follows_check (binding : ClusterRoleTemplateBinding)
    {W} (h : handler Call W) (w : W) :
  let o := run h (reconcileBindings binding) w in
  Forall (λ ev,
            ∀ roleName key makeOwner,
              memberEnsured ev = Some (roleName, key, makeOwner) →
              roleName = ToLower (ClusterName binding +:+
                                  (if makeOwner then "-clusterowner" else "-clustermember"))
              ∧ key = GetRTBLabel (crtbMeta binding)
              ∧ ∃ ev', ev' ∈ log o ∧ rolesChecked ev' = Some makeOwner)
         (log o).
Proof.
  cbv zeta. unfold reconcileBindings. case_decide; simpl; [constructor|].
  answer. destruct r as [[cluster|]|err]; simpl.
  2,3: by repeat constructor.
  answer. destruct r as [isOwnerRole|err]; simpl.
  2: { destruct (IsNotFound err); simpl; by repeat constructor. }
  destruct (BuildSubjectFromRTB binding) as [subject|err]; simpl.
  2: by repeat constructor.
  unfold check, checked. simpl. answer.
  assert (Hensure : ∀ tl roleName key makeOwner,
    Some (if isOwnerRole then ToLower (ClusterName binding +:+ "-clusterowner")
          else ToLower (ClusterName binding +:+ "-clustermember"),
          GetRTBLabel (crtbMeta binding), isOwnerRole) = Some (roleName, key, makeOwner) →
    roleName = ToLower (ClusterName binding +:+
                        (if makeOwner then "-clusterowner" else "-clustermember"))
    ∧ key = GetRTBLabel (crtbMeta binding)
    ∧ ∃ ev', ev' ∈ Ev (clusterLister_Get "" (ClusterName binding)) (Ok (Some cluster))
                   :: Ev (mgr_checkReferencedRoles (RoleTemplateName binding)
                            clusterContext 0) (Ok isOwnerRole) :: tl
             ∧ rolesChecked ev' = Some makeOwner).
  { intros tl roleName key makeOwner [= <- <- <-]. split; [by destruct isOwnerRole|].
    split; [done|]. eexists. split; [apply list_elem_of_further, list_elem_of_here|done]. }
  destruct r as [err|]; simpl.
  { constructor; [done|]. constructor; [done|]. constructor; [apply Hensure|constructor]. }
  answer. destruct r as [err|]; simpl.
  { constructor; [done|]. constructor; [done|]. constructor; [apply Hensure|].
    by repeat constructor. }
  answer. destruct r as [projects|err]; simpl.
  2: { constructor; [done|]. constructor; [done|]. constructor; [apply Hensure|].
       by repeat constructor. }
  constructor; [done|]. constructor; [done|]. constructor; [apply Hensure|].
  constructor; [done|]. constructor; [done|].
  eapply Forall_impl.
  - apply always_run, (grantInProjects_always (λ ev, memberEnsured ev = None)); done.
  - simpl. intros ev Hnone ??? Hsome. congruence.
Qed.

(** *** Label migration *)

Lemma migrated_insert key value (meta : ObjectMeta) :
  migrated key value meta
    (withLabels (<[ rtbLabelUpdated := "true" ]> (<[ key := value ]> (Labels meta))) meta).
Proof.
  split; [done|]. simpl. split; [by rewrite lookup_insert_eq|]. split.
  - intros Hne. by rewrite lookup_insert_ne, lookup_insert_eq.
  - intros k Hk Hk'. by rewrite !lookup_insert_ne.
Qed.

Lemma updateCRB_writesBack key crb prev :
  alwaysAfter (writesBack key) prev (updateCRB key crb).
Proof.
  unfold updateCRB. simpl. intros r. split; [by split|].
  destruct r as [fetched|err]; simpl; [|done]. intros r. split; [|by destruct r].
  split; [|done]. intros upd [= <-]. do 2 eexists. split; [done|]. split; [done|].
  apply migrated_insert.
Qed.

Lemma updateRB_writesBack key rb prev :
  alwaysAfter (writesBack key) prev (updateRB key rb).
Proof.
  unfold updateRB. simpl. intros r. split; [by split|].
  destruct r as [fetched|err]; simpl; [|done]. intros r. split; [|by destruct r].
  split; [done|]. intros upd [= <-]. do 2 eexists. split; [done|]. split; [done|].
  apply migrated_insert.
Qed.

Lemma reconcileLabels_writesBack binding :
  alwaysAfter (writesBack (GetRTBLabel (crtbMeta binding))) None (reconcileLabels binding).
Proof.
  set (key := GetRTBLabel (crtbMeta binding)).
  assert (HC : ∀ crbs acc prev, alwaysAfter (writesBack key) prev (relabelCRBs key crbs acc)).
  { induction crbs as [|crb crbs IH]; intros acc prev; [done|].
    cbn [relabelCRBs]. apply alwaysAfter_bind; [|intros; apply IH].
    apply alwaysAfter_OnError. intros. apply updateCRB_writesBack. }
  assert (HR : ∀ rbs acc prev, alwaysAfter (writesBack key) prev (relabelRBs key rbs acc)).
  { induction rbs as [|rb rbs IH]; intros acc prev; [done|].
    cbn [relabelRBs]. apply alwaysAfter_bind; [|intros; apply IH].
    apply alwaysAfter_OnError. intros. apply updateRB_writesBack. }
  unfold reconcileLabels. case_decide; [done|].
  destruct (getLabelRequirements _) as [requirements|err]; [|done].
  unfold checked. apply alwaysAfter_bind; [intros x; by repeat split|].
  intros [crbs|err] prev; [|done].
  apply alwaysAfter_bind; [apply HC|]. intros returnErr prev'.
  apply alwaysAfter_bind; [intros x; by repeat split|].
  intros [rbs|err] prev''; [|done].
  apply alwaysAfter_bind; [apply HR|]. intros [err|] prev'''; [done|].
  apply alwaysAfter_OnError. intros prev0. unfold updateCRTB. simpl.
  intros r. split; [by split|]. destruct r as [c|err]; simpl; [|done].
  intros r. split; [by split|]. by destruct r.
Qed.

(** X6. The label migration only ever writes back what it has just read.
    Every [Update] of a ClusterRoleBinding or RoleBinding in a run of
    [reconcileLabels] comes right after the successful fetch of that object
    and hands over the fetched object with two labels set, the key of the
    CRTB and [rtb-label-updated]; every other label, the legacy one among
    them, is kept, and nothing but the labels changes. *)
Theorem migration_writes_back (binding : ClusterRoleTemplateBinding)
    {W} (h : handler Call W) (w : W) pre ev post :
  log (run h (reconcileLabels binding) w) = pre ++ ev :: post →
  (∀ upd, crbUpdated ev = Some upd →
     ∃ prevEv fetched,
       last pre = Some prevEv ∧ crbFetched prevEv = Some fetched
       ∧ migrated (GetRTBLabel (crtbMeta binding)) MembershipBindingOwner
                  (crbMeta fetched) (crbMeta upd))
  ∧ (∀ upd, rbUpdated ev = Some upd →
       ∃ prevEv fetched,
         last pre = Some prevEv ∧ rbFetched prevEv = Some fetched
         ∧ migrated (GetRTBLabel (crtbMeta binding)) CrtbInProjectBindingOwner
                    (rbMeta fetched) (rbMeta upd)).
Proof.
  intros Hlog.
  pose proof (alwaysAfter_run h _ None _ w (reconcileLabels_writesBack binding)) as Hch.
  pose proof (chained_split _ _ _ _ _ _ Hch Hlog) as Hev.
  assert (Hlast : default None (Some <$> last pre) = last pre) by (by destruct (last pre)).
  rewrite Hlast in Hev. exact Hev.
Qed.

(** X7. When the listing of the RoleBindings fails, [reconcileLabels]
    returns that error alone: errors of ClusterRoleBindings that were
    relabelled before are not part of the result, and neither a RoleBinding
    nor the CRTB is touched. *)
Theorem listing_failure_hides_item_errors (binding : ClusterRoleTemplateBinding)
    {W} (h : handler Call W) (w : W) requirements crbs err :
  let key := GetRTBLabel (crtbMeta binding) in
  let listCRBs := crbLister_List NamespaceAll (legacyCRBSelector binding requirements) in
  let listRBs := rbLister_List NamespaceAll (legacyRBSelector binding requirements) in
  let a1 := h _ listCRBs w in
  let o1 := run_all h (relabelCRBPrograms key crbs) a1.2 in
  let a2 := h _ listRBs (post o1) in
  let o := run h (reconcileLabels binding) w in
  index (Labels (crtbMeta binding)) RtbCrbRbLabelsUpdated ≠ "true" →
  getLabelRequirements (crtbMeta binding) = Ok requirements →
  a1.1 = Ok crbs →
  a2.1 = Err err →
  ret o = Some err
  ∧ log o = Ev listCRBs a1.1 :: log o1 ++ [Ev listRBs a2.1].
Proof.
  cbv zeta. intros Hlabel Hreq H1 H2. unfold reconcileLabels.
  rewrite decide_False by done. rewrite Hreq.
  rewrite run_checked, run_call. cbn [ret post log]. rewrite H1. cbv zeta.
  rewrite run_bind, AuthSpec.relabelCRBs_run. cbn [ret post log].
  rewrite run_checked, run_call. cbn [ret post log]. rewrite H2. cbn [ret post log].
  done.
Qed.

(** X8. The retried relabelling of one ClusterRoleBinding fetches that
    binding, by its name, at least once and at most five times, and updates
    no more often than it fetches.  It gives up before the fifth attempt
    only on an error that is not a conflict, and it returns nil only when
    its last call is an update that succeeded. *)
Theorem relabel_attempts_bounded (key : string) (crb : ClusterRoleBinding)
    {W} (h : handler Call W) (w : W) :
  let o := run h (RetryOnConflict DefaultRetry (updateCRB key crb)) w in
  let gets : list string := omap crbGet (log o) in
  (1 ≤ length gets ≤ 5)%nat
  ∧ Forall (λ n, n = Name (crbMeta crb)) gets
  ∧ (length (omap crbUpdated (log o)) ≤ length gets)%nat
  ∧ (∀ e, ret o = Some e → (length gets < 5)%nat → IsConflict e = false)
  ∧ (ret o = None →
     ∃ pre upd stored, log o = pre ++ [Ev (crbClient_Update upd) (Ok stored)]).
Proof.
  cbv zeta. unfold RetryOnConflict, DefaultRetry.
  assert (Hgen : ∀ n lastErr w,
    let o := run h (OnError n IsConflict (updateCRB key crb) lastErr) w in
    let gets : list string := omap crbGet (log o) in
    (length gets ≤ n)%nat
    ∧ (0 < n → 0 < length gets)%nat
    ∧ Forall (λ n, n = Name (crbMeta crb)) gets
    ∧ (length (omap crbUpdated (log o)) ≤ length gets)%nat
    ∧ (∀ e, ret o = Some e → (length gets < n)%nat → IsConflict e = false)
    ∧ (ret o = None →
       (log o = [] ∧ lastErr = None)
       ∨ ∃ pre upd stored, log o = pre ++ [Ev (crbClient_Update upd) (Ok stored)])).
  { clear w. induction n as [|n IH]; intros lastErr w; cbv zeta.
    { simpl. split; [done|]. split; [lia|]. split; [done|]. split; [done|].
      split; [intros; lia|]. intros ->. by left. }
    cbn [OnError]. rewrite run_bind. cbv zeta. unfold updateCRB at 1 2 3 4 5 6. simpl.
    destruct (h _ (crbClient_Get (Name (crbMeta crb))) w) as [[fetched|err] w1] eqn:Hget;
      simpl.
    - destruct (h _ (crbClient_Update _) w1) as [[stored|err] w2] eqn:Hupd; simpl.
      + split; [lia|]. split; [lia|]. split; [by repeat constructor|]. split; [lia|].
        split; [done|]. intros _. right. by eexists [_], _, _.
      + destruct (IsConflict err) eqn:Hconf; simpl.
        * destruct (IH (Some err) w2) as (Hle & Hpos & Hnames & Hupds & Hearly & Hnil).
          refold.
          split; [lia|]. split; [lia|]. split; [by constructor|]. split; [lia|].
          split; [intros e He Hlt; apply Hearly; [done|lia]|].
          intros Hret. destruct (Hnil Hret) as [[_ ?]|(pre & upd & stored & ->)]; [done|].
          right. by eexists (_ :: _ :: pre), _, _.
        * split; [lia|]. split; [lia|]. split; [by repeat constructor|]. split; [lia|].
          split; [by intros e [= <-]|done].
    - destruct (IsConflict err) eqn:Hconf; simpl.
      + destruct (IH (Some err) w1) as (Hle & Hpos & Hnames & Hupds & Hearly & Hnil).
        refold.
        split; [lia|]. split; [lia|]. split; [by constructor|]. split; [lia|].
        split; [intros e He Hlt; apply Hearly; [done|lia]|].
        intros Hret. destruct (Hnil Hret) as [[_ ?]|(pre & upd & stored & ->)]; [done|].
        right. by eexists (_ :: pre), _, _.
      + split; [lia|]. split; [lia|]. split; [by repeat constructor|]. split; [lia|].
        split; [by intros e [= <-]|done]. }
  destruct (Hgen 5 None w) as (Hle & Hpos & Hnames & Hupds & Hearly & Hnil).
  split; [split; [apply Hpos; lia|done]|]. split; [done|]. split; [done|].
  split; [done|]. intros Hret. destruct (Hnil Hret) as [[Hlog _]|?]; [|done].
  assert (0 < 5) as Hp by lia. apply Hpos in Hp. rewrite Hlog in Hp. simpl in Hp. lia.
Qed.

(** *** Subject resolution *)

Lemma substring_whole (s : string) : String.substring 0 (String.length s) s = s.
Proof. induction s as [|a s IH]; simpl; [done|]. by rewrite IH. Qed.

Lemma length_app_string (s1 s2 : string) :
  String.length (s1 +:+ s2) = (String.length s1 + String.length s2)%nat.
Proof. induction s1 as [|a s1 IH]; simpl; [done|]. by rewrite IH. Qed.

Lemma substring_skip (pre s : string) (m : nat) :
  String.substring (String.length pre) m (pre +:+ s) = String.substring 0 m s.
Proof. induction pre as [|a pre IH]; simpl; [done|]. apply IH. Qed.

Lemma substring_cut (s : string) (n : nat) :
  (n ≤ String.length s)%nat →
  s = String.substring 0 n s +:+ String.substring n (String.length s - n) s.
Proof.
  revert n. induction s as [|a s IH]; intros n Hn; simpl in *.
  - destruct n; [done|lia].
  - destruct n as [|n]; simpl.
    + by rewrite substring_whole.
    + change (String a s
              = String a (String.substring 0 n s
                          +:+ String.substring n (String.length s - n) s)).
      f_equal. apply IH. lia.
Qed.

(** [HasSuffix s suffix] says that [s] ends with [suffix]. *)
Lemma HasSuffix_spec (s suffix : string) :
  HasSuffix s suffix = true ↔ ∃ pre, s = pre +:+ suffix.
Proof.
  unfold HasSuffix. rewrite andb_true_iff, !bool_decide_eq_true. split.
  - intros [Hlen Hsub].
    exists (String.substring 0 (String.length s - String.length suffix) s).
    pose proof (substring_cut s (String.length s - String.length suffix)) as Hcut.
    replace (String.length s - (String.length s - String.length suffix))%nat
      with (String.length suffix) in Hcut by lia.
    rewrite Hsub in Hcut. apply Hcut. lia.
  - intros [pre ->]. rewrite length_app_string. split; [lia|].
    replace (String.length pre + String.length suffix - String.length suffix)%nat
      with (String.length pre) by lia.
    by rewrite substring_skip, substring_whole.
Qed.

Lemma scanPrincipalIDs_cases (ids : list string) (binding : ClusterRoleTemplateBinding) :
  scanPrincipalIDs ids binding = binding
  ∨ ∃ p, p ∈ ids ∧ HasSuffix p (UserName binding) = true
         ∧ scanPrincipalIDs ids binding = withUserPrincipalName p binding.
Proof.
  induction ids as [|p ids IH]; simpl; [by left|].
  destruct (HasSuffix p (UserName binding)) eqn:Hp.
  - right. exists p. split; [apply list_elem_of_here|done].
  - destruct IH as [IH|(q & Hq & Hs & IH)]; [by left|].
    right. exists q. split; [by apply list_elem_of_further|done].
Qed.

(** X9. Subject resolution fills in what is missing and touches nothing
    else.  The binding it returns has the metadata, the group fields, the
    cluster and the role template of the one it was given; a user name or
    user principal name that was set is kept; with an error the binding
    comes back as it was; and a principal name that was written ends with
    the user name. *)
Theorem reconcileSubject_fills_only_missing (binding : ClusterRoleTemplateBinding)
    {W} (h : handler Call W) (w : W) binding' e :
  ret (run h (reconcileSubject binding) w) = (Some binding', e) →
  crtbMeta binding' = crtbMeta binding
  ∧ GroupName binding' = GroupName binding
  ∧ GroupPrincipalName binding' = GroupPrincipalName binding
  ∧ ClusterName binding' = ClusterName binding
  ∧ RoleTemplateName binding' = RoleTemplateName binding
  ∧ (UserName binding ≠ "" → UserName binding' = UserName binding)
  ∧ (UserPrincipalName binding ≠ "" →
     UserPrincipalName binding' = UserPrincipalName binding)
  ∧ (e ≠ None → binding' = binding)
  ∧ (UserPrincipalName binding' ≠ UserPrincipalName binding →
     ∃ pre, UserPrincipalName binding' = pre +:+ UserName binding').
Proof.
  unfold reconcileSubject. repeat case_decide; simpl.
  - intros [= <- <-]. by repeat split.
  - destruct (h _ _ w).1 as [user|err]; simpl; intros [= <- <-]; repeat split; try done.
    intros Hn. by destruct Hn; intuition.
  - destruct (h _ _ w).1 as [u|err]; simpl; intros [= <- <-]; [|by repeat split].
    destruct (scanPrincipalIDs_cases (PrincipalIDs u) binding) as [->|(p & _ & Hp & ->)];
      [by repeat split|].
    simpl. repeat split; try done.
    + intros Hn. by destruct Hn; intuition.
    + intros _. by apply HasSuffix_spec.
  - done.
Qed.

End Facts.

(** *** The statements at work in the example world *)

#[local] Existing Instance exampleDeps.

(** The first update of the example run hands back [crb-1] as it was
    fetched, with the key of the CRTB added. *)
Lemma migration_writes_back_witness :
  let h := exampleHandler (Ok true) "" in
  let o := run h (reconcileLabels (exampleBinding "alice" "local://alice" "")) () in
  ∃ upd, omap crbUpdated (take 3 (log o)) = [upd]
         ∧ Labels (crbMeta upd) !! "c-1_crtb-1" = Some MembershipBindingOwner
         ∧ Labels (crbMeta upd) !! rtbLabelUpdated = Some "true".
Proof.
  cbv zeta. eexists. split; [vm_compute; reflexivity|].
  edestruct (migration_writes_back (exampleBinding "alice" "local://alice" "")
               (exampleHandler (Ok true) "") ()
               (take 2 (log (run (exampleHandler (Ok true) "")
                               (reconcileLabels (exampleBinding "alice" "local://alice" ""))
                               ()))))
    as [Hcrb _]; [reflexivity|].
  edestruct Hcrb as (prevEv & fetched & _ & _ & Hmig); [reflexivity|].
  destruct Hmig as (_ & Hupdated & Hkey & _).
  split; [apply Hkey; by vm_compute|exact Hupdated].
Defined.

(** Fetching [crb-1] is refused and the listing of the RoleBindings fails:
    the listing error is the result. *)
Lemma listing_failure_hides_item_errors_witness :
  let h := rbListingFails (exampleHandler (Ok true) "crb-1") in
  let o := run h (reconcileLabels (exampleBinding "alice" "local://alice" "")) () in
  ret o = Some (errorString "listing failed").
Proof.
  cbv zeta.
  edestruct (listing_failure_hides_item_errors (exampleBinding "alice" "local://alice" "")
               (rbListingFails (exampleHandler (Ok true) "crb-1")) () [] exampleCRBs)
    as [Hret _].
  - by vm_compute.
  - reflexivity.
  - reflexivity.
  - reflexivity.
  - exact Hret.
Defined.

(** A binding with the user name only: the principal is written, the rest
    is kept. *)
Lemma reconcileSubject_fills_only_missing_witness :
  let h := exampleHandler (Ok true) "" in
  let binding := exampleBinding "alice" "" "" in
  ∃ binding',
    ret (run h (reconcileSubject binding) ()) = (Some binding', None)
    ∧ UserName binding' = "alice"
    ∧ ClusterName binding' = "c-1".
Proof.
  cbv zeta. eexists. split; [vm_compute; reflexivity|].
  edestruct (reconcileSubject_fills_only_missing (exampleBinding "alice" "" "")
               (exampleHandler (Ok true) "") ())
    as (_ & _ & _ & Hcluster & _ & Hname & _); [vm_compute; reflexivity|].
  split; [by apply Hname|exact Hcluster].
Defined.

End AuthMore.

(** ** The token store, continued *)

Module TokensMore.
Import Tokens.

#[local] Ltac allowed :=
  repeat match goal with
    | |- context [Allowed ?v] => destruct (Allowed v) eqn:?; simpl in *
    end.

#[local] Ltac crunch :=
  unfold Create, Update, Get, List, Delete, generateValue, checkOtherUser,
    userHasFullPermissions;
  simpl; repeat (progress (repeat (case_decide; simpl); answers; allowed)).

(** X10. A token survives storage: from a secret that carries, as data, the
    string data that [secretFromToken] builds, [tokenFromSecret] reads the
    token's name, spec and hash back; the plaintext value and the namespace
    do not come back.  The secret as built holds no data yet, and reads back
    as a token with an empty spec. *)
Theorem token_survives_storage (token : RancherToken) (secret : Secret) :
  secretName secret = Name token →
  Data secret = StringData (secretFromToken token) →
  tokenFromSecret secret = storedToken token
  ∧ Spec (tokenFromSecret (secretFromToken token))
    = {| UserID := ""; ClusterName := ""; TTL := ""; Enabled := "" |}.
Proof.
  intros Hname Hdata. split; [|done].
  unfold tokenFromSecret, storedToken, index. rewrite Hname, Hdata.
  destruct token as [n ns [u c t e] [p hv]]. simpl. done.
Qed.

Lemma token_survives_storage_witness :
  let token := exampleToken "plain" "$1:hash" in
  let secret := {| secretNamespace := tokenNamespace; secretName := "token-1";
                   StringData := ∅; Data := StringData (secretFromToken token) |} in
  Spec (tokenFromSecret secret) = Spec token
  ∧ Status (tokenFromSecret secret)
    = {| PlaintextToken := ""; HashedToken := "$1:hash" |}.
Proof.
  cbv zeta.
  destruct (token_survives_storage (exampleToken "plain" "$1:hash")
              {| secretNamespace := tokenNamespace; secretName := "token-1";
                 StringData := ∅;
                 Data := StringData (secretFromToken (exampleToken "plain" "$1:hash")) |})
    as [Hread _]; [reflexivity|reflexivity|].
  by rewrite Hread.
Defined.

#[local] Ltac permitted :=
  first
    [ left; assumption
    | left;
      match goal with
      | Hn : ¬ (?a ≠ ?b) |- ?a = ?b => by destruct (decide (a = b))
      end
    | right; simpl;
      repeat match goal with Hb : Allowed _ = _ |- _ => rewrite Hb end;
      repeat first [apply list_elem_of_here | apply list_elem_of_further] ].

#[local] Ltac each_call tac :=
  repeat (constructor; [try done; tac|]); try done.

(** X11. Nothing is written without permission.  A secret is created or
    updated only when the submitted token names the caller as its user or an
    access review has allowed the caller; a secret is deleted only when the
    stored token names the caller or a review has allowed them. *)
Theorem writes_need_permission (userInfo : UserInfo) {W} (h : handler Call W) (w : W) :
  (∀ token,
     let o := run h (Create userInfo token) w in
     Forall (λ ev, isWrite ev = true →
                   UserID (Spec token) = GetName userInfo
                   ∨ true ∈ omap reviewAllowed (log o)) (log o))
  ∧ (∀ token,
       let o := run h (Update userInfo token) w in
       Forall (λ ev, isWrite ev = true →
                     UserID (Spec token) = GetName userInfo
                     ∨ true ∈ omap reviewAllowed (log o)) (log o))
  ∧ (∀ name,
       let o := run h (Delete userInfo name) w in
       Forall (λ ev, isWrite ev = true →
                     ∃ secret,
                       omap cachedSecret (log o) = [secret]
                       ∧ (UserID (Spec (tokenFromSecret secret)) = GetName userInfo
                          ∨ true ∈ omap reviewAllowed (log o))) (log o)).
Proof.
  split; [|split].
  - intros token. crunch; each_call ltac:(intros _; permitted).
  - intros token. crunch; each_call ltac:(intros _; permitted).
  - intros name. crunch; each_call ltac:(intros _; eexists; split; [done|permitted]).
Qed.


(** X13. [Update] decides on the user named in the submitted token; the user
    recorded in the current secret is not consulted.  When the submitted
    token names the caller, no access review is made: the current secret is
    read from the namespace the token names, and a secret built from the
    submitted name and spec, with the hash of the current secret, is written
    to the token namespace. *)
Theorem Update_trusts_submitted_user (userInfo : UserInfo) (token : RancherToken)
    {W} (h : handler Call W) (w : W) (current : Secret) :
  let get := secretCache_Get (Namespace token) (Name token) in
  let written :=
    secretFromToken
      (withPlaintextToken ""
         (withHashedToken (index (Data current) "hashedToken") token)) in
  let o := run h (Update userInfo token) w in
  UserID (Spec token) = GetName userInfo →
  (h _ get w).1 = Ok current →
  log o = [Ev get (Ok current);
           Ev (secretClient_Update written) (h _ (secretClient_Update written) (h _ get w).2).1]
  ∧ secretNamespace written = tokenNamespace
  ∧ secretName written = Name token
  ∧ StringData written !! "userID" = Some (GetName userInfo).
Proof.
  cbv zeta. intros Huser Hget. unfold Update, checkOtherUser.
  rewrite decide_False by (intros Hn; by apply Hn). simpl. rewrite Hget. simpl.
  split; [by destruct (h _ (secretClient_Update _) _).1|].
  split; [done|]. split; [done|]. rewrite <-Huser. by simplify_map_eq.
Qed.

Lemma listTokens_filter authed userInfo secrets tokens :
  listTokens authed userInfo secrets tokens
  = tokens ++ (tokenFromSecret <$> filter (visibleTo authed userInfo) secrets).
Proof.
  revert tokens. induction secrets as [|secret secrets IH]; intros tokens; simpl.
  { by rewrite app_nil_r. }
  rewrite filter_cons. destruct (decide (visibleTo authed userInfo secret)) as [Hv|Hv].
  - replace (negb authed && bool_decide (index (Data secret) "userID" ≠ GetName userInfo))
      with false.
    + rewrite IH, fmap_cons, <-app_assoc. done.
    + destruct Hv as [->|Hv]; [done|]. rewrite bool_decide_eq_false_2.
      * by rewrite andb_false_r.
      * intros Hn. by apply Hn.
  - replace (negb authed && bool_decide (index (Data secret) "userID" ≠ GetName userInfo))
      with true; [apply IH|].
    destruct authed; [by destruct Hv; left|]. symmetry. apply bool_decide_eq_true_2.
    intros Heq. apply Hv. by right.
Qed.

(** X14. [List] lists the secrets of the token namespace and asks for the
    access review in every case.  When the review is answered, the result
    is, in the order of the secrets, every token if the review allows and
    else the caller's own tokens, each as read from its secret and so with
    its hash; when the review fails, [List] fails, also for a caller who
    would see only their own tokens. *)
Theorem List_shows_own_or_all (userInfo : UserInfo) {W} (h : handler Call W) (w : W)
    (secrets : list Secret) :
  let list := secretCache_List tokenNamespace in
  let review := sar_Create (fullPermissionsReview userInfo) in
  let a1 := h _ list w in
  let a2 := h _ review a1.2 in
  let o := run h (List userInfo) w in
  a1.1 = Ok secrets →
  log o = [Ev list a1.1; Ev review a2.1]
  ∧ match a2.1 with
    | Ok sar =>
        ret o = (Some (tokenFromSecret <$>
                         filter (visibleTo (Allowed sar) userInfo) secrets), None)
    | Err err =>
        ret o = (None, Some (Errorf_w "unable to check if user has * on tokens: "
                               (Errorf_w "uanble to create SAR: " err)))
    end.
Proof.
  cbv zeta. intros Hlist. unfold List, userHasFullPermissions. simpl.
  rewrite Hlist. simpl.
  destruct (h _ (sar_Create _) _).1 as [answer|err]; simpl; [|done].
  by rewrite listTokens_filter.
Qed.

Lemma closing_write (tr : list (Event Call)) (ev : Event Call) :
  Forall (λ ev', isWrite ev' = false) tr →
  ∀ pre ev0 post, tr ++ [ev] = pre ++ ev0 :: post → isWrite ev0 = true → post = [].
Proof.
  intros Htr. induction Htr as [|ev' tr Hev' _ IH]; intros pre ev0 post Heq Hw.
  - destruct pre as [|? pre]; simpl in Heq; [by injection Heq|].
    injection Heq as _ Heq. by destruct pre.
  - destruct pre as [|? pre]; simpl in Heq.
    + injection Heq as <- _. congruence.
    + injection Heq as _ Heq. by eapply IH.
Qed.

(** X15. [Delete] deletes at most one secret, the one of the given name in
    the token namespace, as its last call, and returns nil exactly when that
    deletion was made and answered nil. *)
Theorem Delete_removes_the_named_secret (userInfo : UserInfo) (name : string)
    {W} (h : handler Call W) (w : W) :
  let o := run h (Delete userInfo name) w in
  (omap deletedSecret (log o) = []
   ∨ omap deletedSecret (log o) = [(tokenNamespace, name)])
  ∧ (∀ pre ev post, log o = pre ++ ev :: post → isWrite ev = true → post = [])
  ∧ (ret o = None ↔ omap deleteAnswered (log o) = [None]).
Proof.
  cbv zeta. crunch.
  all: split; [first [by left|by right]|].
  all: split; [|done].
  all: first [ apply (closing_write [] _); by repeat constructor
             | apply (closing_write [_] _); by repeat constructor
             | apply (closing_write [_; _] _); by repeat constructor ].
Qed.

(** X16. What [Create] returns is the submitted token with its status
    changed only: the name, the namespace and the spec are the submitted
    ones, the hash is cleared, a plaintext value that was submitted is
    returned as it was, and no error comes with a token. *)
Theorem Create_returns_submitted (userInfo : UserInfo) (token : RancherToken)
    {W} (h : handler Call W) (w : W) token' e :
  ret (run h (Create userInfo token) w) = (Some token', e) →
  e = None
  ∧ Name token' = Name token
  ∧ Namespace token' = Namespace token
  ∧ Spec token' = Spec token
  ∧ HashedToken (Status token') = ""
  ∧ (PlaintextToken (Status token) ≠ "" →
     PlaintextToken (Status token') = PlaintextToken (Status token)).
Proof. crunch; intros ?; by simplify_eq/=. Qed.

Lemma Update_trusts_submitted_user_witness :
  let token := exampleToken "" "" in
  let written := secretFromToken (exampleToken "" "$1:stored") in
  UserID (Spec token) = GetName exampleUser
  ∧ log (run exampleHandler (Update exampleUser token) ())
    = [Ev (secretCache_Get tokenNamespace "token-1") (Ok exampleSecret);
       Ev (secretClient_Update written) (Ok written)].
Proof.
  cbv zeta. split; [reflexivity|].
  destruct (Update_trusts_submitted_user exampleUser (exampleToken "" "")
              exampleHandler () exampleSecret) as [Hlog _];
    [reflexivity|reflexivity|].
  exact Hlog.
Defined.

Lemma List_shows_own_or_all_witness :
  (exampleHandler _ (secretCache_List tokenNamespace) ()).1 = Ok [exampleSecret]
  ∧ ret (run exampleHandler (List exampleUser) ())
    = (Some [tokenFromSecret exampleSecret], None).
Proof.
  split; [reflexivity|].
  destruct (List_shows_own_or_all exampleUser exampleHandler () [exampleSecret])
    as [_ Hret]; [reflexivity|].
  exact Hret.
Defined.

Lemma Create_returns_submitted_witness :
  ret (run exampleHandler (Create exampleUser (exampleToken "given" "")) ())
  = (Some (exampleToken "given" ""), None)
  ∧ PlaintextToken (Status (exampleToken "given" "")) = "given".
Proof.
  split; [reflexivity|].
  destruct (Create_returns_submitted exampleUser (exampleToken "given" "")
              exampleHandler () (exampleToken "given" "") None)
    as (_ & _ & _ & _ & _ & Hplain); [reflexivity|].
  apply Hplain. discriminate.
Defined.

End TokensMore.

(** ** More of pkg/ext/stores/useractivity/store.go *)

Module UserActivityMore.
Import UserActivity.

Section Facts.
Context `{Deps}.

Lemma no_update (tr pre post : list (Event Call)) t x :
  omap updatedToken tr = [] → tr ≠ pre ++ Ev (tokenController_Update t) x :: post.
Proof.
  intros Hno ->. rewrite omap_app in Hno. simpl in Hno.
  by apply app_eq_nil in Hno as [_ ?].
Qed.

Lemma closing_update (tr pre post : list (Event Call)) ev t x :
  omap updatedToken tr = [] →
  tr ++ [ev] = pre ++ Ev (tokenController_Update t) x :: post →
  post = [] ∧ pre = tr ∧ updatedToken ev = Some t.
Proof.
  revert pre. induction tr as [|ev' tr IH]; intros pre Hno Heq.
  - destruct pre as [|? pre]; simpl in Heq.
    + injection Heq as -> <-. done.
    + injection Heq as _ Heq. by destruct pre.
  - destruct pre as [|? pre]; simpl in Heq.
    + injection Heq as -> _. done.
    + injection Heq as <- Heq. simpl in Hno.
      destruct (updatedToken ev') eqn:Hev; [done|].
      destruct (IH pre Hno Heq) as (-> & -> & ?). done.
Qed.

(** X17. [Create] starts by fetching the token named in the request.  It
    updates at most once, as its last call, and what it writes is the
    fetched token with a new idle timeout only, after the name of the
    request has been found to be the one built from the user and the name of
    that token and the token to be the one named.  A returned object has the
    name and the token of the request and reports the idle timeout that was
    written. *)
Theorem Create_extends_the_named_token (obj : UserActivity) {W} (h : handler Call W)
    (w : W) :
  let o := run h (Create obj) w in
  let fetch := tokenController_Get (TokenId obj) in
  (∃ rest, log o = Ev fetch (h _ fetch w).1 :: rest)
  ∧ (∀ pre t x post,
       log o = pre ++ Ev (tokenController_Update t) x :: post →
       post = []
       ∧ omap updatedToken pre = []
       ∧ ∃ token,
           (h _ fetch w).1 = Ok token
           ∧ tokenName t = tokenName token
           ∧ UserID t = UserID token
           ∧ tokenName token = TokenId obj
           ∧ setUserActivityName (UserID token) (tokenName token) = Ok (Name obj))
  ∧ (∀ ua e,
       ret o = (Some ua, e) →
       e = None
       ∧ Name ua = Name obj
       ∧ TokenId ua = TokenId obj
       ∧ ∃ t, omap updatedToken (log o) = [t]
              ∧ CurrentTimeout (Status ua) = Time_String (LastIdleTimeout t)).
Proof.
  cbv zeta. unfold Create. rewrite run_bind, run_call. cbn [ret post log].
  destruct (h _ (tokenController_Get (TokenId obj)) w) as [[token|err] w1];
    cbn [fst snd].
  2:{ simpl. split; [by eexists|]. split; [|done].
      intros pre t x post Heq. by apply no_update in Heq. }
  simpl. destruct (h _ time_Now w1) as [now w2]. simpl.
  destruct (h _ AuthUserSessionIdleTTLMinutes_GetInt w2) as [minutes w3]. simpl.
  unfold create.
  destruct (setUserActivityName (UserID token) (tokenName token)) as [expected|err]
    eqn:Hname.
  2:{ simpl. split; [by eexists|]. split; [|done].
      intros pre t x post Heq. by apply no_update in Heq. }
  case_decide as Hn.
  { simpl. split; [by eexists|]. split; [|done].
    intros pre t x post Heq. by apply no_update in Heq. }
  case_decide as Ht.
  { simpl. split; [by eexists|]. split; [|done].
    intros pre t x post Heq. by apply no_update in Heq. }
  assert (Name obj = expected) as <- by (by destruct (decide (Name obj = expected))).
  assert (tokenName token = TokenId obj) as Htok
      by (by destruct (decide (tokenName token = TokenId obj))).
  rewrite run_bind, run_call. cbn [ret post log].
  destruct (h _ (tokenController_Update _) w3) as [r w4]. cbn [fst snd].
  split; [by eexists|]. split.
  - intros pre t x post Heq.
    assert (Hlog : ∀ tr : list (Event Call),
              log (run h match r with
                         | Ok _ => mret (Some (withStatus
                             {| CurrentTimeout := Time_String (Time_UTC (Time_Add (Time_UTC now)
                                  (Duration_mul Minute (int64 minutes))));
                                LastActivity := Time_String (Time_UTC now) |} obj), None)
                         | Err err => mret (None, Some (Errorf_v "failed to update token: " err))
                         end w4) = []) by (intros _; by destruct r).
    rewrite Hlog in Heq by exact [].
    cbn [app] in Heq.
    apply (closing_update [_; _; _]) in Heq as (-> & -> & Hup); [|done].
    simpl in Hup. injection Hup as <-. split; [done|]. split; [done|].
    by exists token.
  - intros ua e Hret. destruct r as [t'|err]; simpl in Hret; [|done].
    injection Hret as <- <-. simpl. split; [done|]. split; [done|]. split; [done|].
    by eexists.
Qed.

(** X18. [get] only reads: it asks at most for the token whose name it
    parsed out of the given name, and never updates.  What it returns on
    success is built from that token alone: the given name, the name of the
    token and its idle timeout, with no last activity; the user parsed out of
    the given name is the user of the token. *)
Theorem get_only_reads (uaname : string) {W} (h : handler Call W) (w : W) :
  let o := run h (get uaname) w in
  omap updatedToken (log o) = []
  ∧ match getUserActivityName uaname with
    | Err _ => log o = [] ∧ (ret o).1 = None ∧ (ret o).2 ≠ None
    | Ok (user, token) =>
        let fetch := tokenController_Get token in
        log o = [Ev fetch (h _ fetch w).1]
        ∧ ∀ ua e,
            ret o = (Some ua, e) →
            e = None
            ∧ ∃ tokenId,
                (h _ fetch w).1 = Ok tokenId
                ∧ UserID tokenId = user
                ∧ ua = {| Name := uaname; TokenId := tokenName tokenId;
                          Status := {| CurrentTimeout :=
                                         Time_String (LastIdleTimeout tokenId);
                                       LastActivity := "" |} |}
    end.
Proof.
  cbv zeta. unfold get. destruct (getUserActivityName uaname) as [[user token]|err].
  2:{ done. }
  rewrite run_bind, run_call. cbn [ret post log].
  destruct (h _ (tokenController_Get token) w) as [[tokenId|err] w1]; cbn [fst snd].
  2:{ done. }
  case_decide as Hu; simpl; [done|].
  split; [done|]. split; [done|]. intros ua e [= <- <-]. split; [done|].
  exists tokenId. split; [done|]. split; [|done].
  by destruct (decide (UserID tokenId = user)).
Qed.

End Facts.

End UserActivityMore.

(** ** pkg/ext/apiserver.go *)

Module ExtSpec.
Import Ext.

Lemma append_empty_r (s : string) : s +:+ "" = s.
Proof. induction s as [|c s IH]; [done|]. exact (f_equal (String c) IH). Qed.

Lemma append_assoc (s t u : string) : (s +:+ t) +:+ u = s +:+ t +:+ u.
Proof. induction s as [|c s IH]; [done|]. exact (f_equal (String c) IH). Qed.

Lemma inCutset_slash (c : ascii) : inCutset c "/" = bool_decide (c = "/"%char).
Proof.
  unfold inCutset. simpl. apply bool_decide_ext. rewrite list_elem_of_singleton. done.
Qed.

Lemma segment_cons c s :
  Forall (λ c, c ≠ "/"%char) (String.list_ascii_of_string (String c s)) →
  c ≠ "/"%char ∧ Forall (λ c, c ≠ "/"%char) (String.list_ascii_of_string s).
Proof. simpl. by intros [? ?]%Forall_cons. Qed.

Lemma Split_nonempty s sep : Split s sep ≠ [].
Proof.
  induction s as [|c s IH]; simpl; [done|].
  case_decide; [done|]. by destruct (Split s sep).
Qed.

Lemma Split_plain s :
  Forall (λ c, c ≠ "/"%char) (String.list_ascii_of_string s) → Split s "/" = [s].
Proof.
  induction s as [|c s IH]; intros Hs; [done|].
  apply segment_cons in Hs as [Hc Hs]. simpl.
  rewrite decide_False by done. by rewrite IH.
Qed.

Lemma Split_segment s rest :
  Forall (λ c, c ≠ "/"%char) (String.list_ascii_of_string s) →
  Split (s +:+ "/" +:+ rest) "/" = s :: Split rest "/".
Proof.
  induction s as [|c s IH]; intros Hs.
  - reflexivity.
  - apply segment_cons in Hs as [Hc Hs].
    change (String c s +:+ "/" +:+ rest) with (String c (s +:+ "/" +:+ rest)).
    simpl. rewrite decide_False by done. by rewrite IH.
Qed.

Lemma Split_Join segs :
  segs ≠ [] → Forall segment segs → Split (Join segs "/") "/" = segs.
Proof.
  induction segs as [|s segs IH]; intros Hne Hsegs; [done|].
  apply Forall_cons in Hsegs as [[_ Hs] Hsegs].
  destruct segs as [|s' segs].
  - simpl. by apply Split_plain.
  - change (Join (s :: s' :: segs) "/") with (s +:+ "/" +:+ Join (s' :: segs) "/").
    rewrite Split_segment by done. by rewrite IH.
Qed.

Lemma TrimRight_plain s :
  Forall (λ c, c ≠ "/"%char) (String.list_ascii_of_string s) → TrimRight s "/" = s.
Proof.
  induction s as [|c s IH]; intros Hs; [done|].
  apply segment_cons in Hs as [Hc Hs]. simpl. rewrite IH by done.
  rewrite inCutset_slash, bool_decide_eq_false_2 by done. by destruct s.
Qed.

Lemma TrimRight_app p x :
  TrimRight x "/" = x → x ≠ "" → TrimRight (p +:+ x) "/" = p +:+ x.
Proof.
  intros Hx Hne. induction p as [|c p IH]; [done|].
  change (String c p +:+ x) with (String c (p +:+ x)).
  simpl. rewrite IH. destruct (p +:+ x) eqn:Hpx; [|done].
  destruct p; [by rewrite <-Hpx in Hne|discriminate].
Qed.

Lemma TrimRight_slash x :
  TrimRight x "/" = x → x ≠ "" → TrimRight (x +:+ "/") "/" = x.
Proof.
  induction x as [|c x IH]; intros Hx Hne; [done|].
  simpl in *. destruct x as [|c' x].
  - simpl in *. rewrite inCutset_slash in *. by case_bool_decide.
  - assert (Hx' : TrimRight (String c' x) "/" = String c' x).
    { destruct (TrimRight (String c' x) "/"); [|by injection Hx as -> ->].
      by destruct (inCutset c "/"). }
    rewrite IH by done. done.
Qed.

Lemma Join_segments segs :
  segs ≠ [] → Forall segment segs →
  TrimRight (Join segs "/") "/" = Join segs "/"
  ∧ ∃ c t, Join segs "/" = String c t ∧ c ≠ "/"%char.
Proof.
  induction segs as [|s segs IH]; intros Hne Hsegs; [done|].
  apply Forall_cons in Hsegs as [[Hs Hplain] Hsegs].
  destruct s as [|c s]; [done|]. pose proof Hplain as [Hc _]%segment_cons.
  destruct segs as [|s' segs].
  - split; [by apply TrimRight_plain|]. by exists c, s.
  - change (Join (String c s :: s' :: segs) "/")
      with (String c s +:+ "/" +:+ Join (s' :: segs) "/").
    destruct IH as (Hright & c' & t & HJ & _); [done|done|].
    split.
    + apply TrimRight_app; [|done].
      apply (TrimRight_app "/"); [done|]. by rewrite HJ.
    + by exists c, (s +:+ "/" +:+ Join (s' :: segs) "/").
Qed.

(** A path written from its segments, with or without a closing slash, is
    trimmed and split into these segments. *)
Lemma Split_Trim_path segs (closing : bool) :
  segs ≠ [] → Forall segment segs →
  Split (Trim ("/" +:+ Join segs "/" +:+ (if closing then "/" else "")) "/") "/" = segs.
Proof.
  intros Hne Hsegs.
  destruct (Join_segments segs Hne Hsegs) as (Hright & c & t & HJ & Hc).
  assert (Hleft : ∀ rest, TrimLeft ("/" +:+ Join segs "/" +:+ rest) "/"
                          = Join segs "/" +:+ rest).
  { intros rest. rewrite HJ.
    change (TrimLeft ("/" +:+ String c t +:+ rest) "/")
      with (if inCutset c "/" then TrimLeft (t +:+ rest) "/" else String c (t +:+ rest)).
    by rewrite inCutset_slash, bool_decide_eq_false_2. }
  unfold Trim. rewrite Hleft. destruct closing.
  - rewrite TrimRight_slash; [by apply Split_Join|done|by rewrite HJ].
  - rewrite append_empty_r, Hright. by apply Split_Join.
Qed.

#[local] Ltac segments :=
  simpl; repeat (apply Forall_cons; split; [assumption|]); by apply Forall_nil.

Lemma at_index_0 {T} (x : T) l : at_index (x :: l) 0 = Returned x.
Proof. done. Qed.

Lemma GroupVersion_String_segments groupVersion :
  segment (Group groupVersion) →
  GroupVersion_String groupVersion = Group groupVersion +:+ "/" +:+ Version groupVersion.
Proof.
  intros [Hne _]. unfold GroupVersion_String. case_decide as Hlen; [done|].
  destruct (Group groupVersion); [done|]. simpl in Hlen. lia.
Qed.

Lemma splitResource_path (segs : list string) (resource : string) (closing : bool) :
  let path := "/" +:+ Join (segs ++ [resource]) "/" +:+ (if closing then "/" else "") in
  Forall segment segs → segment resource →
  splitResource path
  = if decide (length segs < 3)
    then Returned ("", Some (errorString ("could not find resource in path: " +:+ path)))
    else Returned (resource, None).
Proof.
  cbv zeta. intros Hsegs Hres. unfold splitResource.
  rewrite Split_Trim_path; [|by destruct segs|by apply Forall_app; split; [|constructor]].
  rewrite length_app. simpl.
  destruct (decide (length segs < 3)) as [Hlt|Hge].
  - rewrite decide_True by lia. done.
  - rewrite decide_False by lia. by rewrite Nat.add_sub, drop_app_length.
Qed.

Lemma splitNamespaceResource_path (lead : list string) (kind : string)
    (rest : list string) (closing : bool) :
  let path := "/" +:+ Join (lead ++ kind :: rest) "/" +:+ (if closing then "/" else "") in
  Forall segment (lead ++ kind :: rest) →
  length lead = 3 →
  splitNamespaceResource path
  = if decide (kind ≠ "namespaces")
    then Returned ("", "", Some (errorString ("wrong format in path: " +:+ path)))
    else match rest with
         | namespace :: resource :: _ => Returned (namespace, resource, None)
         | _ => Panicked
         end.
Proof.
  cbv zeta. intros Hsegs Hlen. unfold splitNamespaceResource.
  rewrite Split_Trim_path; [|by destruct lead|done].
  rewrite length_app. simpl. rewrite decide_False by lia.
  rewrite <-Hlen, drop_app_length. rewrite at_index_0.
  destruct (decide (kind ≠ "namespaces")); [done|].
  by destruct rest as [|namespace [|resource more]].
Qed.

(** X21. [splitResource] never panics.  For a path written from segments,
    with or without a closing slash, it returns the last segment when there
    are at least four, whatever the segments before it are, and else an
    error and no resource. *)
Theorem splitResource_last_segment (segs : list string) (resource : string)
    (closing : bool) :
  let path := "/" +:+ Join (segs ++ [resource]) "/" +:+ (if closing then "/" else "") in
  (∀ p, splitResource p ≠ Panicked)
  ∧ (Forall segment segs → segment resource →
     splitResource path
     = if decide (length segs < 3)
       then Returned ("", Some (errorString ("could not find resource in path: " +:+ path)))
       else Returned (resource, None)).
Proof.
  cbv zeta. split.
  - intros p. unfold splitResource. case_decide as Hlen; [done|].
    destruct (Split (Trim p "/") "/") as [|x l] eqn:Hl using rev_ind; [simpl in Hlen; lia|].
    rewrite length_app, Nat.add_sub, drop_app_length. done.
  - apply splitResource_path.
Qed.

(** X22. [splitNamespaceResource] on a path written from segments, with or
    without a closing slash: with fewer than four segments, or with a fourth
    segment other than [namespaces], it returns an error; with [namespaces]
    as fourth segment it returns the fifth and the sixth segment, whatever
    follows them; and when the fifth or the sixth segment is missing it
    panics on the index. *)
Theorem splitNamespaceResource_segments (lead : list string) (kind : string)
    (rest : list string) (closing : bool) :
  let path := "/" +:+ Join (lead ++ kind :: rest) "/" +:+ (if closing then "/" else "") in
  Forall segment (lead ++ kind :: rest) →
  (length lead + length rest < 3 →
   splitNamespaceResource path
   = Returned ("", "", Some (errorString ("could not find namespace and resource in path: "
                                           +:+ path))))
  ∧ (length lead = 3 →
     splitNamespaceResource path
     = if decide (kind ≠ "namespaces")
       then Returned ("", "", Some (errorString ("wrong format in path: " +:+ path)))
       else match rest with
            | namespace :: resource :: _ => Returned (namespace, resource, None)
            | _ => Panicked
            end).
Proof.
  cbv zeta. intros Hsegs. split.
  - intros Hlen. unfold splitNamespaceResource.
    rewrite Split_Trim_path; [|by destruct lead|done].
    rewrite length_app. simpl. rewrite decide_True by lia. done.
  - by apply splitNamespaceResource_path.
Qed.

Section Dispatch.
Context {CRDHandler : Type}.
Implicit Types (s : APIServer CRDHandler) (handler : CRDHandler).

Lemma namespaced_path groupVersion (namespace : string) (rest : list string) :
  segment (Group groupVersion) →
  namespacedPattern groupVersion +:+ Join (namespace :: rest) "/"
  = "/" +:+ Join (["apis"; Group groupVersion; Version groupVersion]
                    ++ "namespaces" :: namespace :: rest) "/" +:+ "".
Proof.
  intros Hg. unfold namespacedPattern. rewrite GroupVersion_String_segments by done.
  change (Join ([?a; ?b; ?c] ++ ?d :: ?l) "/")
    with (a +:+ "/" +:+ b +:+ "/" +:+ c +:+ "/" +:+ d +:+ "/" +:+ Join l "/").
  by rewrite !append_assoc, append_empty_r.
Qed.

Lemma resource_path groupVersion (resource : string) :
  segment (Group groupVersion) →
  resourcePattern groupVersion +:+ resource
  = "/" +:+ Join (["apis"; Group groupVersion; Version groupVersion] ++ [resource]) "/"
        +:+ "".
Proof.
  intros Hg. unfold resourcePattern. rewrite GroupVersion_String_segments by done.
  simpl. by rewrite !append_assoc, append_empty_r.
Qed.

(** X23. A request for the very prefix under which the namespaced handler
    of a group version is registered, or for a namespace below it without a
    resource, makes the handler panic, whatever is registered. *)
Theorem namespacedResourceHandler_panics_without_resource s groupVersion
    (namespace : string) :
  segment (Group groupVersion) → segment (Version groupVersion) → segment namespace →
  namespacedResourceHandler s groupVersion (namespacedPattern groupVersion) = Panic
  ∧ namespacedResourceHandler s groupVersion (namespacedPattern groupVersion +:+ namespace)
    = Panic.
Proof.
  intros Hg Hv Hns. unfold namespacedResourceHandler.
  assert (Hapis : segment "apis") by (split; [done|by repeat constructor]).
  assert (Hkind : segment "namespaces") by (split; [done|by repeat constructor]).
  split.
  - assert (Hsegs : Forall segment (["apis"; Group groupVersion; Version groupVersion]
                                    ++ "namespaces" :: []))
      by segments.
    pose proof (splitNamespaceResource_path _ _ _ true Hsegs eq_refl) as Hsplit.
    cbv zeta in Hsplit.
    assert (Hpath : namespacedPattern groupVersion
                    = "/" +:+ Join (["apis"; Group groupVersion; Version groupVersion]
                                      ++ "namespaces" :: []) "/" +:+ "/").
    { unfold namespacedPattern. rewrite GroupVersion_String_segments by done.
      simpl. by rewrite !append_assoc. }
    by rewrite Hpath, Hsplit.
  - assert (Hsegs : Forall segment (["apis"; Group groupVersion; Version groupVersion]
                                    ++ "namespaces" :: [namespace]))
      by segments.
    pose proof (splitNamespaceResource_path _ _ _ false Hsegs eq_refl) as Hsplit.
    cbv zeta in Hsplit.
    pose proof (namespaced_path groupVersion namespace [] Hg) as Hpath.
    change (Join [namespace] "/") with namespace in Hpath.
    by rewrite Hpath, Hsplit.
Qed.

(** X24. A registered resource is served: after [AddAPIResource], a request
    for the resource below the prefix of its group version is handed to the
    registered handler, by the cluster handler with the empty namespace when
    the resource is not namespaced, and by the namespaced handler with the
    namespace of the path when it is, whatever follows the resource in the
    path. *)
Theorem registered_resource_is_served s groupVersion resource handler :
  let s' := AddAPIResource groupVersion resource handler s in
  segment (Group groupVersion) → segment (Version groupVersion) →
  segment (Name resource) →
  (Namespaced resource = false →
   resourceHandler s' groupVersion (resourcePattern groupVersion +:+ Name resource)
   = Delegate handler "")
  ∧ (Namespaced resource = true →
     ∀ namespace more,
       segment namespace → Forall segment more →
       namespacedResourceHandler s' groupVersion
         (namespacedPattern groupVersion
            +:+ Join (namespace :: Name resource :: more) "/")
       = Delegate handler namespace).
Proof.
  cbv zeta. intros Hg Hv Hname.
  assert (Hapis : segment "apis") by (split; [done|by repeat constructor]).
  assert (Hkind : segment "namespaces") by (split; [done|by repeat constructor]).
  split.
  - intros Hcluster. unfold resourceHandler. rewrite resource_path by done.
    pose proof (splitResource_path
                  ["apis"; Group groupVersion; Version groupVersion] (Name resource) false)
      as Hsplit.
    cbv zeta in Hsplit. rewrite Hsplit by (done || segments). simpl.
    unfold AddAPIResource. rewrite Hcluster. simpl. by rewrite lookup_insert_eq.
  - intros Hnamespaced namespace more Hns Hmore. unfold namespacedResourceHandler.
    rewrite namespaced_path by done.
    assert (Hsegs : Forall segment (["apis"; Group groupVersion; Version groupVersion]
                                      ++ "namespaces" :: namespace :: Name resource :: more)).
    { simpl. repeat (apply Forall_cons; split; [assumption|]). done. }
    pose proof (splitNamespaceResource_path _ _ _ false Hsegs eq_refl) as Hsplit.
    cbv zeta in Hsplit. rewrite Hsplit. simpl.
    unfold AddAPIResource. rewrite Hnamespaced. simpl. by rewrite lookup_insert_eq.
Qed.

(** X25. [AddAPIResource] adds and never removes: the resource is appended
    to the discovery list of its group version, which starts empty, and the
    lists of other group versions are kept; the handler is put under the
    resource in the one delegate map that fits the resource, the other map
    is kept, and so are the handlers of every other resource: requests for
    another group version are answered as before. *)
Theorem registration_keeps_the_rest s groupVersion resource handler :
  let s' := AddAPIResource groupVersion resource handler s in
  let gvr : GroupVersionResource :=
    (Group groupVersion, Version groupVersion, Name resource) in
  APIResources <$> resourceList s' !! gvKey groupVersion
  = Some (default [] (APIResources <$> resourceList s !! gvKey groupVersion) ++ [resource])
  ∧ (∀ key, key ≠ gvKey groupVersion → resourceList s' !! key = resourceList s !! key)
  ∧ (∀ other : GroupVersionResource, other ≠ gvr →
       delegates s' !! other = delegates s !! other
       ∧ namespacedDelegates s' !! other = namespacedDelegates s !! other)
  ∧ (if Namespaced resource
     then delegates s' = delegates s ∧ namespacedDelegates s' !! gvr = Some handler
     else namespacedDelegates s' = namespacedDelegates s ∧ delegates s' !! gvr = Some handler)
  ∧ (∀ groupVersion' path,
       gvKey groupVersion' ≠ gvKey groupVersion →
       resourceHandler s' groupVersion' path = resourceHandler s groupVersion' path
       ∧ namespacedResourceHandler s' groupVersion' path
         = namespacedResourceHandler s groupVersion' path).
Proof.
  cbv zeta.
  assert (Hlist : resourceList (AddAPIResource groupVersion resource handler s)
                  = match resourceList s !! gvKey groupVersion with
                    | Some list =>
                        <[gvKey groupVersion :=
                            {| listGroupVersion := listGroupVersion list;
                               APIResources := APIResources list ++ [resource] |}]>
                          (resourceList s)
                    | None =>
                        <[gvKey groupVersion :=
                            {| listGroupVersion := GroupVersion_String groupVersion;
                               APIResources := [resource] |}]> (resourceList s)
                    end).
  { unfold AddAPIResource.
    destruct (resourceList s !! gvKey groupVersion) as [list|] eqn:Hgv.
    - rewrite Hgv. by destruct (Namespaced resource).
    - rewrite lookup_insert_eq, insert_insert_eq. by destruct (Namespaced resource). }
  assert (Hother : ∀ other : GroupVersionResource,
            other ≠ (Group groupVersion, Version groupVersion, Name resource) →
            delegates (AddAPIResource groupVersion resource handler s) !! other
            = delegates s !! other
            ∧ namespacedDelegates (AddAPIResource groupVersion resource handler s) !! other
              = namespacedDelegates s !! other).
  { intros other Hne. unfold AddAPIResource.
    destruct (Namespaced resource); simpl; by rewrite lookup_insert_ne. }
  split; [|split; [|split; [|split]]].
  - rewrite Hlist. destruct (resourceList s !! gvKey groupVersion);
      by rewrite lookup_insert_eq.
  - intros key Hkey. rewrite Hlist. destruct (resourceList s !! gvKey groupVersion);
      by rewrite lookup_insert_ne.
  - exact Hother.
  - unfold AddAPIResource. destruct (Namespaced resource); simpl;
      by rewrite lookup_insert_eq.
  - intros groupVersion' path Hgv. unfold resourceHandler, namespacedResourceHandler.
    split.
    + destruct (splitResource path) as [[r [e|]]|]; [done| |done]. cbv zeta.
      destruct (Hother (Group groupVersion', Version groupVersion', r)) as [-> _]; [|done].
      intros [= Hg Hv _]. apply Hgv. unfold gvKey. by rewrite Hg, Hv.
    + destruct (splitNamespaceResource path) as [[[ns r] [e|]]|]; [done| |done]. cbv zeta.
      destruct (Hother (Group groupVersion', Version groupVersion', r)) as [_ ->]; [|done].
      intros [= Hg Hv _]. apply Hgv. unfold gvKey. by rewrite Hg, Hv.
Qed.

End Dispatch.

Lemma splitResource_last_segment_witness :
  splitResource "/apis/ext.cattle.io/v1/useractivities/" = Returned ("useractivities", None).
Proof.
  destruct (splitResource_last_segment ["apis"; "ext.cattle.io"; "v1"] "useractivities" true)
    as [_ Hsplit].
  apply Hsplit; repeat constructor; discriminate.
Defined.

Lemma splitNamespaceResource_segments_witness :
  splitNamespaceResource "/apis/ext.cattle.io/v1/namespaces/default/tokens/token-1"
  = Returned ("default", "tokens", None).
Proof.
  apply (splitNamespaceResource_segments ["apis"; "ext.cattle.io"; "v1"] "namespaces"
           ["default"; "tokens"; "token-1"] false); [|reflexivity].
  repeat constructor; discriminate.
Defined.

Lemma namespacedResourceHandler_panics_without_resource_witness :
  namespacedResourceHandler (CRDHandler := unit) NewAPIServer
    {| Group := "ext.cattle.io"; Version := "v1" |} "/apis/ext.cattle.io/v1/namespaces/"
  = Panic.
Proof.
  apply (namespacedResourceHandler_panics_without_resource NewAPIServer
           {| Group := "ext.cattle.io"; Version := "v1" |} "default");
    repeat constructor; discriminate.
Defined.

Lemma registered_resource_is_served_witness :
  resourceHandler
    (AddAPIResource {| Group := "ext.cattle.io"; Version := "v1" |}
       {| Name := "useractivities"; Namespaced := false |} "useractivity store"
       NewAPIServer)
    {| Group := "ext.cattle.io"; Version := "v1" |} "/apis/ext.cattle.io/v1/useractivities"
  = Delegate "useractivity store" "".
Proof.
  apply (registered_resource_is_served NewAPIServer
           {| Group := "ext.cattle.io"; Version := "v1" |}
           {| Name := "useractivities"; Namespaced := false |} "useractivity store");
    try reflexivity; repeat constructor; discriminate.
Defined.

End ExtSpec.
